(** * Personalised problem annotation and weak-field recommendation

    A shallow embedding of [problem/views/oj.py]: the two
    [_add_problem_status] helpers that attach a user's progress to problem
    listings, [get_user_solved_problems], and the [get] handler of
    [AIRecommendProblemAPI].

    Python dictionaries whose iteration order is observable (the
    [field_score] mapping) are insertion-ordered association lists; the
    progress dictionaries, which are only ever probed with [.get], are
    [gmap]s keyed by strings.  Exceptions are an explicit [result] type, and
    the in-place updates of the [field_score] dictionary are threaded through
    a small state-and-exception monad. *)

From stdpp Require Import base option list gmap strings pretty.
From Stdlib Require Import ZArith Lia.

Local Open Scope Z_scope.

(** ** Python-level plumbing *)

(** The exception classes that the modelled code can raise. *)
Inductive exn : Type :=
| DoesNotExist
| KeyError (key : string)
| ValueError.

Inductive result (A : Type) : Type :=
| Ok (a : A)
| Raise (e : exn).
Arguments Ok {A} a.
Arguments Raise {A} e.

#[global] Instance result_ret : MRet result := λ A a, Ok a.
#[global] Instance result_bind : MBind result := λ A B f r,
  match r with
  | Ok a => f a
  | Raise e => Raise e
  end.

(** [str(n)] on a Python integer. *)
Definition str (n : Z) : string := pretty n.

(** Insertion-ordered dictionaries with string keys. *)
Module Dict.
Abbreviation t V := (list (string * V)).

Section Dict.
Context {V : Type}.

Definition keys (d : t V) : list string := d.*1.

(** [d.get(k)] *)
Fixpoint get (d : t V) (k : string) : option V :=
  match d with
  | [] => None
  | (k', v) :: d' => if decide (k' = k) then Some v else get d' k
  end.

(** [d[k]] *)
Definition item (d : t V) (k : string) : result V :=
  match get d k with
  | Some v => Ok v
  | None => Raise (KeyError k)
  end.

(** [d[k] = v]: an existing key keeps its position, a new key goes last. *)
Fixpoint set (d : t V) (k : string) (v : V) : t V :=
  match d with
  | [] => [(k, v)]
  | (k', v') :: d' =>
      if decide (k' = k) then (k', v) :: d' else (k', v') :: set d' k v
  end.

End Dict.
End Dict.

(** ** Data model *)

(** [ProblemRuleType] and [ContestRuleType] carry the same two constants. *)
Inductive RuleType : Type := ACM | OI.

#[global] Instance RuleType_eq_dec : EqDecision RuleType.
Proof. solve_decision. Defined.

(** One entry of a progress dictionary, [{"_id": ..., "status": ...}];
    [None] stands for a key that the entry does not have. *)
Record ProgressRecord : Type := {
  rec__id : option string;
  rec_status : option Z
}.

(** The empty dictionary [{}] used as the default of the inner [.get]. *)
Definition no_record : ProgressRecord :=
  {| rec__id := None; rec_status := None |}.

(** [profile.acm_problems_status] and [profile.oi_problems_status]: each may
    or may not have the keys ["problems"] and ["contest_problems"]. *)
Record ProblemsStatus : Type := {
  problems : option (gmap string ProgressRecord);
  contest_problems : option (gmap string ProgressRecord)
}.

Record UserProfile : Type := {
  acm_problems_status : ProblemsStatus;
  oi_problems_status : ProblemsStatus;
  field_score : Dict.t Z
}.

(** [request.user]; [userprofile] is read only behind [is_authenticated]. *)
Record User : Type := {
  is_authenticated : bool;
  userprofile : UserProfile
}.

(** A serialized problem as the annotators see it. *)
Module ProblemData.
Record t : Type := {
  id : Z;
  rule_type : RuleType;
  my_status : option Z
}.

(** [problem["my_status"] = s] *)
Definition set_my_status (problem : t) (s : option Z) : t :=
  {| id := id problem; rule_type := rule_type problem; my_status := s |}.
End ProblemData.

(** What [_add_problem_status] of [ProblemAPI] receives: the serialized
    problem itself, or the paginated dictionary with its ["results"]. *)
Inductive QuerysetValues : Type :=
| Single (problem : ProblemData.t)
| Page (results : list ProblemData.t) (total : Z).

(** [m.get(str(problem["id"]), {}).get("status")] *)
Definition status_of (m : gmap string ProgressRecord) (problem : ProblemData.t)
  : option Z :=
  rec_status (default no_record (m !! str (ProblemData.id problem))).

(** A row of the [Problem] table. *)
Module Problem.
Record t : Type := {
  id : Z;
  _id : string;
  field : string;
  visible : bool;
  contest_id : option Z
}.
End Problem.

(** The two tables the views query. *)
Record Database : Type := {
  UserProfile_objects : gmap Z UserProfile;
  Problem_objects : list Problem.t
}.

(** [UserProfile.objects.get(user=user)] *)
Definition UserProfile_objects_get (db : Database) (user : Z)
  : result UserProfile :=
  match UserProfile_objects db !! user with
  | Some profile => Ok profile
  | None => Raise DoesNotExist
  end.

(** ** StatusAnnotator *)

Module ProblemAPI.

(** The body of the [for] loop: the global namespace of the problem's own
    rule type is probed. *)
Definition annotate
    (acm_problems_status oi_problems_status : gmap string ProgressRecord)
    (problem : ProblemData.t) : ProblemData.t :=
  if decide (ProblemData.rule_type problem = ACM)
  then ProblemData.set_my_status problem
         (status_of acm_problems_status problem)
  else ProblemData.set_my_status problem
         (status_of oi_problems_status problem).

(** [results = queryset_values.get("results")], then [results] itself or the
    one-element list [[queryset_values, ]]. *)
Definition problems_of (queryset_values : QuerysetValues)
  : list ProblemData.t :=
  match queryset_values with
  | Page results _ => results
  | Single problem => [problem]
  end.

(** The loop assigns into the dictionaries of [problems], which are the very
    objects held by [queryset_values]; this puts them back. *)
Definition with_problems (queryset_values : QuerysetValues)
    (problems : list ProblemData.t) : QuerysetValues :=
  match queryset_values, problems with
  | Page _ total, _ => Page problems total
  | Single _, [problem] => Single problem
  | Single problem, _ => Single problem
  end.

Definition _add_problem_status (user : User)
    (queryset_values : QuerysetValues) : QuerysetValues :=
  if is_authenticated user then
    let profile := userprofile user in
    let acm_problems_status :=
      default ∅ (problems (acm_problems_status profile)) in
    let oi_problems_status :=
      default ∅ (problems (oi_problems_status profile)) in
    let problems := problems_of queryset_values in
    with_problems queryset_values
      (annotate acm_problems_status oi_problems_status <$> problems)
  else queryset_values.

End ProblemAPI.

Module ContestProblemAPI.

(** [self.contest.rule_type] is the first argument; here [queryset_values]
    is always a plain list. *)
Definition _add_problem_status (contest_rule_type : RuleType) (user : User)
    (queryset_values : list ProblemData.t) : list ProblemData.t :=
  if is_authenticated user then
    let profile := userprofile user in
    let problems_status :=
      if decide (contest_rule_type = ACM)
      then default ∅ (contest_problems (acm_problems_status profile))
      else default ∅ (contest_problems (oi_problems_status profile)) in
    (λ problem,
       ProblemData.set_my_status problem (status_of problems_status problem))
      <$> queryset_values
  else queryset_values.

End ContestProblemAPI.

(** ** WeakFieldRecommender *)

(** The list comprehension of [get_user_solved_problems]: the condition
    reads [v['status']], the element reads [v['_id']]. *)
Fixpoint accepted_ids (ACCEPTED : Z) (items : list (string * ProgressRecord))
  : result (list string) :=
  match items with
  | [] => Ok []
  | (_, v) :: rest =>
      status ← from_option Ok (Raise (KeyError "status")) (rec_status v);
      if decide (status = ACCEPTED) then
        _id ← from_option Ok (Raise (KeyError "_id")) (rec__id v);
        ids ← accepted_ids ACCEPTED rest;
        Ok (_id :: ids)
      else accepted_ids ACCEPTED rest
  end.

(** [ACCEPTED] is [JudgeStatus.ACCEPTED]. *)
Definition get_user_solved_problems (ACCEPTED : Z) (db : Database) (user : Z)
  : result (list string) :=
  profile ← UserProfile_objects_get db user;
  let solved_problems := default ∅ (problems (acm_problems_status profile)) in
  accepted_ids ACCEPTED (map_to_list solved_problems).

(** [random.sample(population, k)], the pool variant of the library: [k]
    draws, each below the number of entries still live, the drawn slot being
    refilled with the last live entry.  The generator is a tape of naturals,
    one per draw. *)
Module random.
Section random.
Context {A : Type}.

Definition randbelow (n : nat) (tape : list nat) : nat * list nat :=
  match tape with
  | [] => (0%nat, [])
  | r :: tape' => (r `mod` n, tape')%nat
  end.

(** [todo] draws remain and the first [live] slots of [pool] are live. *)
Fixpoint draw (pool : list A) (live todo : nat) (tape : list nat) : list A :=
  match todo with
  | O => []
  | S todo' =>
      let '(j, tape') := randbelow live tape in
      match pool !! j, pool !! (live - 1)%nat with
      | Some x, Some y => x :: draw (<[j:=y]> pool) (live - 1) todo' tape'
      | _, _ => []
      end
  end.

Definition sample (population : list A) (k : nat) (tape : list nat)
  : result (list A) :=
  let n := length population in
  if decide (k ≤ n)%nat then Ok (draw population n k tape)
  else Raise ValueError.

End random.
End random.

(** What [weak_field] can hold: the integer [0] it starts with, or a key of
    [field_score]. *)
Inductive FieldRef : Type :=
| IntField (n : Z)
| KeyField (k : string).

(** Modelled from the spec: the [field] column of [Problem] is declared in
    [problem/models.py], which is not among the sources at hand.  Field
    identifiers are the strings that key [field_score], and the lookup
    [field=weak_field] converts the integer of the initial candidate to that
    representation. *)
Definition field_id (weak_field : FieldRef) : string :=
  match weak_field with
  | IntField n => str n
  | KeyField k => k
  end.

(** The body of [get] runs against the [field_score] dictionary of the
    profile object it has loaded: a state-and-exception monad over that
    dictionary. *)
Definition M (A : Type) : Type := Dict.t Z → result A * Dict.t Z.

#[global] Instance M_ret : MRet M := λ A a fs, (Ok a, fs).
#[global] Instance M_bind : MBind M := λ A B f m fs,
  match m fs with
  | (Ok a, fs') => f a fs'
  | (Raise e, fs') => (Raise e, fs')
  end.

(** [field_score[k]] *)
Definition getitem (k : string) : M Z := λ fs, (Dict.item fs k, fs).

(** [field_score[k] = v] *)
Definition setitem (k : string) (v : Z) : M unit :=
  λ fs, (Ok (), Dict.set fs k v).

(** the keys [field_score.items()] walks through *)
Definition iter_keys : M (list string) := λ fs, (Ok (Dict.keys fs), fs).

(** the dictionary object itself *)
Definition this : M (Dict.t Z) := λ fs, (Ok fs, fs).

Definition lift {A} (r : result A) : M A := λ fs, (r, fs).

Module AIRecommendProblemAPI.
Section get.

(** Constants and the serializer are declared outside the sources at hand:
    [JudgeStatus.ACCEPTED], [ProblemScore.score['VeryHigh']] and
    [RecommendBonusProblemSerializer]. *)
Variable ACCEPTED : Z.
Variable VeryHigh : Z.
Variable Serialized : Type.
Variable RecommendBonusProblemSerializer : Problem.t → Serialized.

(** The [for k, v in field_score.items()] loop. *)
Fixpoint scan (ks : list string) (weak_field : FieldRef)
    (weak_field_score : Z) : M (FieldRef * Z) :=
  match ks with
  | [] => mret (weak_field, weak_field_score)
  | k :: ks' =>
      v ← getitem k;
      max_score ← getitem "max_score";
      setitem k (Z.min v max_score);;
      capped ← getitem k;
      if decide (capped < weak_field_score)
      then scan ks' (KeyField k) capped
      else scan ks' weak_field weak_field_score
  end.

(** Lines 150 to 158: the cap is stored, field ["0"] is the initial
    candidate, the loop caps and compares. *)
Definition select_weak_field : M FieldRef :=
  setitem "max_score" (VeryHigh * 20);;
  let weak_field := IntField 0 in
  weak_field_score ← getitem "0";
  ks ← iter_keys;
  found ← scan ks weak_field weak_field_score;
  mret found.1.

(** [Problem.objects.filter(field=weak_field, visible=True)
      .exclude(_id__in=solved)] *)
Definition unresolved (db : Database) (weak_field : FieldRef)
    (solved : list string) : list Problem.t :=
  filter (λ p, Problem._id p ∉ solved)
    (filter (λ p, Problem.field p = field_id weak_field
                  ∧ Problem.visible p = true)
       (Problem_objects db)).

Record Data : Type := {
  data_field_score : Dict.t Z;
  recommend_problems : list Serialized
}.

Inductive Response : Type :=
| success (data : Data)
| HttpResponseNotFound (content : string).

(** The statements after the profile has been fetched. *)
Definition recommend (db : Database) (user : Z) (tape : list nat) : M Data :=
  weak_field ← select_weak_field;
  solved ← lift (get_user_solved_problems ACCEPTED db user);
  let unresolved_problems := unresolved db weak_field solved in
  sampled ← lift (random.sample unresolved_problems
                    (3 `min` length unresolved_problems)%nat tape);
  let recommend_problems := RecommendBonusProblemSerializer <$> sampled in
  field_score ← this;
  mret {| data_field_score := field_score;
          recommend_problems := recommend_problems |}.

(** [except UserProfile.DoesNotExist] *)
Definition handler (r : result Data) : result Response :=
  match r with
  | Ok data => Ok (success data)
  | Raise DoesNotExist => Ok (HttpResponseNotFound "User does not exist")
  | Raise e => Raise e
  end.

(** The handler, for a logged-in [user] (the decorator has let the request
    through).  Besides what is returned or raised, the result tells in which
    state the [field_score] dictionary of the loaded profile object is left,
    if a profile was loaded. *)
Definition get (db : Database) (user : Z) (tape : list nat)
  : result Response * option (Dict.t Z) :=
  match UserProfile_objects_get db user with
  | Ok profile =>
      let '(r, fs) := recommend db user tape (field_score profile) in
      (handler r, Some fs)
  | Raise e => (handler (Raise e), None)
  end.

End get.

Arguments data_field_score {Serialized} _.
Arguments recommend_problems {Serialized} _.
Arguments success {Serialized} data.
Arguments HttpResponseNotFound {Serialized} content.

End AIRecommendProblemAPI.

(** ** Specification-side vocabulary *)

(** The namespace of global progress for a rule type. *)
Definition global_namespace (profile : UserProfile) (rule : RuleType)
  : gmap string ProgressRecord :=
  match rule with
  | ACM => default ∅ (problems (acm_problems_status profile))
  | OI => default ∅ (problems (oi_problems_status profile))
  end.

(** The namespace of contest progress for a rule type. *)
Definition contest_namespace (profile : UserProfile) (rule : RuleType)
  : gmap string ProgressRecord :=
  match rule with
  | ACM => default ∅ (contest_problems (acm_problems_status profile))
  | OI => default ∅ (contest_problems (oi_problems_status profile))
  end.

(** The status a namespace records for a problem id, if any. *)
Definition recorded_status (namespace : gmap string ProgressRecord) (id : Z)
  : option Z :=
  match namespace !! str id with
  | Some record => rec_status record
  | None => None
  end.

(** An entry clipped at the cap. *)
Definition cap_entry (cap : Z) (kv : string * Z) : string * Z :=
  (kv.1, Z.min kv.2 cap).

(** The capped vector: the cap is stored under ["max_score"], then every
    entry is clipped. *)
Definition capped_vector (cap : Z) (fs : Dict.t Z) : Dict.t Z :=
  cap_entry cap <$> Dict.set fs "max_score" cap.

(** A left-to-right scan for the minimum of the capped scores that replaces
    the candidate only on a strictly smaller one. *)
Fixpoint strict_min_scan (cap : Z) (items : list (string * Z))
    (weak_field : FieldRef) (weak_field_score : Z) : FieldRef * Z :=
  match items with
  | [] => (weak_field, weak_field_score)
  | (k, v) :: items' =>
      if decide (Z.min v cap < weak_field_score)
      then strict_min_scan cap items' (KeyField k) (Z.min v cap)
      else strict_min_scan cap items' weak_field weak_field_score
  end.

(** The problems drawn once the weak field and the solved ids are known. *)
Definition sampled_from (db : Database) (weak_field : FieldRef)
    (solved : list string) (tape : list nat) : list Problem.t :=
  let unresolved_problems :=
    AIRecommendProblemAPI.unresolved db weak_field solved in
  random.draw unresolved_problems (length unresolved_problems)
    (3 `min` length unresolved_problems)%nat tape.

(** A progress entry that [get_user_solved_problems] can read: it has a
    status, and an [_id] if that status is the accepted one. *)
Definition record_ok (ACCEPTED : Z) (r : ProgressRecord) : Prop :=
  is_Some (rec_status r)
  ∧ (rec_status r = Some ACCEPTED → is_Some (rec__id r)).

(** A profile as the data model describes it: the keys of the score vector
    are distinct and include the field ["0"], and the global ACM progress
    entries are readable. *)
Definition well_formed (ACCEPTED : Z) (profile : UserProfile) : Prop :=
  NoDup (Dict.keys (field_score profile))
  ∧ is_Some (Dict.get (field_score profile) "0")
  ∧ map_Forall (λ _ r, record_ok ACCEPTED r) (global_namespace profile ACM).

#[global] Instance record_ok_dec ACCEPTED r : Decision (record_ok ACCEPTED r).
Proof. unfold record_ok. apply _. Defined.

#[global] Instance well_formed_dec ACCEPTED profile :
  Decision (well_formed ACCEPTED profile).
Proof. unfold well_formed. apply _. Defined.

(** ** Sample data *)

Module Sample.

Definition record (_id : string) (status : Z) : ProgressRecord :=
  {| rec__id := Some _id; rec_status := Some status |}.

(** Problem 1 ("P1") is accepted globally; in contests, problem 7 is
    accepted under ACM rules and wrong under OI rules. *)
Definition profile (field_score : Dict.t Z) : UserProfile :=
  {| acm_problems_status :=
       {| problems := Some {[ "1" := record "P1" 0 ]};
          contest_problems := Some {[ "7" := record "C7" 0 ]} |};
     oi_problems_status :=
       {| problems := None;
          contest_problems := Some {[ "7" := record "C7" (-1) ]} |};
     field_score := field_score |}.

Definition scores : Dict.t Z := [("0", 40); ("1", 10); ("2", 90)].

Definition user : User :=
  {| is_authenticated := true; userprofile := profile scores |}.

Definition problem (id : Z) (_id field : string) (visible : bool)
    (contest_id : option Z) : Problem.t :=
  {| Problem.id := id; Problem._id := _id; Problem.field := field;
     Problem.visible := visible; Problem.contest_id := contest_id |}.

(** User 1 has a profile, nobody else has. *)
Definition db (field_score : Dict.t Z) : Database :=
  {| UserProfile_objects := {[ 1 := profile field_score ]};
     Problem_objects :=
       [ problem 1 "P1" "1" true None;
         problem 2 "P2" "1" true None;
         problem 3 "P3" "1" false None;
         problem 4 "P4" "0" true None;
         problem 7 "C7" "0" true (Some 3) ] |}.

(** An OI problem listed in a contest. *)
Definition oi_problem : ProblemData.t :=
  {| ProblemData.id := 7; ProblemData.rule_type := OI;
     ProblemData.my_status := None |}.

Definition acm_problem : ProblemData.t :=
  {| ProblemData.id := 1; ProblemData.rule_type := ACM;
     ProblemData.my_status := None |}.

End Sample.

(** ** The other views of the module *)

(** A row of the [Problem] table with the further columns these views
    filter on; [tags] lists the names of the tag rows linked to the
    problem. *)
Module ProblemRow.
Record t : Type := {
  columns : Problem.t;
  title : string;
  difficulty : string;
  is_bonus : bool;
  tags : list string
}.

Definition _id (p : t) : string := Problem._id (columns p).
Definition visible (p : t) : bool := Problem.visible (columns p).
Definition contest_id (p : t) : option Z := Problem.contest_id (columns p).
Definition field (p : t) : string := Problem.field (columns p).
End ProblemRow.

(** [request.GET] and [request.user]. *)
Module Request.
Record t : Type := {
  GET : gmap string string;
  user : User
}.
End Request.

(** [x = request.GET.get(k)] followed by [if x:]: the value, when there is
    one and it is not the empty string. *)
Definition truthy (x : option string) : option string :=
  match x with
  | Some s => if decide (s = "") then None else Some s
  | None => None
  end.

(** Exceptions of the ORM and of indexing that no [except] clause of these
    views names. *)
Inductive uncaught : Type :=
| MultipleObjectsReturned
| IndexError.

(** What a view does: it returns a response, or an exception leaves it. *)
Inductive outcome (R : Type) : Type :=
| Returns (response : R)
| Propagates (e : uncaught).
Arguments Returns {R} response.
Arguments Propagates {R} e.

(** [queryset.get()] on the rows that match. *)
Inductive got (A : Type) : Type :=
| Got (row : A)
| RowDoesNotExist
| RowsMultiple.
Arguments Got {A} row.
Arguments RowDoesNotExist {A}.
Arguments RowsMultiple {A}.

Definition queryset_get {A} (matching : list A) : got A :=
  match matching with
  | [] => RowDoesNotExist
  | [row] => Got row
  | _ => RowsMultiple
  end.

(** [random.randint(a, b)]: [a] plus a draw below [b - a + 1]. *)
Definition randint (a b : nat) (tape : list nat) : nat :=
  (a + (random.randbelow (b - a + 1) tape).1)%nat.

(** [filter(contest_id__isnull=True, visible=True)] *)
Definition public_visible (table : list ProblemRow.t) : list ProblemRow.t :=
  filter (λ p, ProblemRow.contest_id p = None ∧ ProblemRow.visible p = true)
    table.

Module PickOneAPI.

Inductive Response : Type :=
| success (data : string)
| error (msg : string).

Definition get (table : list ProblemRow.t) (tape : list nat)
  : outcome Response :=
  let problems := public_visible table in
  let count := length problems in
  if decide (count = 0%nat) then Returns (error "No problem to pick")
  else
    match problems !! randint 0 (count - 1) tape with
    | Some problem => Returns (success (ProblemRow._id problem))
    | None => Propagates IndexError
    end.

End PickOneAPI.

Module BonusProblemAPI.
Section get.

(** [RecommendBonusProblemSerializer], declared outside the sources at
    hand. *)
Variable Serialized : Type.
Variable RecommendBonusProblemSerializer : ProblemRow.t → Serialized.

Inductive Response : Type :=
| success (data : list Serialized)
| HttpResponseNotFound (content : string).

Definition get (table : list ProblemRow.t) : Response :=
  let bonus_problems :=
    filter (λ p, ProblemRow.contest_id p = None
                 ∧ ProblemRow.visible p = true
                 ∧ ProblemRow.is_bonus p = true) table in
  match bonus_problems with
  | [] => HttpResponseNotFound "No bonus problem"
  | _ => success (RecommendBonusProblemSerializer <$> bonus_problems)
  end.

End get.

Arguments success {Serialized} data.
Arguments HttpResponseNotFound {Serialized} content.

End BonusProblemAPI.

Module ProblemAPIView.
Section get.

(** Declared outside the sources at hand: [ProblemSerializer], the
    [paginate_data] method of the base view, [str.strip] and the
    case-insensitive containment test of the [icontains] lookup. *)
Variable ProblemSerializer : ProblemRow.t → ProblemData.t.
Variable paginate_data :
  Request.t → list ProblemRow.t → (ProblemRow.t → ProblemData.t) →
  QuerysetValues.
Variable strip : string → string.
Variable icontains : string → string → bool.

Inductive Response : Type :=
| success (data : QuerysetValues)
| error (msg : string).

(** [filter(tags__name=tag_text)]: the join gives one row for each linked
    tag of that name. *)
Definition tagged (tag_text : string) (problems : list ProblemRow.t)
  : list ProblemRow.t :=
  p ← problems;
  (λ _, p) <$> filter (λ name, name = tag_text) (ProblemRow.tags p).

(** Lines 77 to 95: the queryset handed to the paginator. *)
Definition listing (GET : gmap string string) (table : list ProblemRow.t)
  : list ProblemRow.t :=
  let problems := public_visible table in
  let problems :=
    match truthy (GET !! "tag") with
    | Some tag_text => tagged tag_text problems
    | None => problems
    end in
  let keyword := strip (default "" (GET !! "keyword")) in
  let problems :=
    if decide (keyword = "") then problems
    else filter (λ p, icontains (ProblemRow.title p) keyword = true
                      ∨ icontains (ProblemRow._id p) keyword = true)
           problems in
  let problems :=
    match truthy (GET !! "difficulty") with
    | Some difficulty =>
        filter (λ p, ProblemRow.difficulty p = difficulty) problems
    | None => problems
    end in
  match truthy (GET !! "field") with
  | Some field => filter (λ p, ProblemRow.field p = field) problems
  | None => problems
  end.

Definition get (request : Request.t) (table : list ProblemRow.t)
  : outcome Response :=
  match truthy (Request.GET request !! "problem_id") with
  | Some problem_id =>
      match queryset_get
              (filter (λ p, ProblemRow._id p = problem_id)
                 (public_visible table)) with
      | Got problem =>
          let problem_data := Single (ProblemSerializer problem) in
          Returns
            (success
               (ProblemAPI._add_problem_status (Request.user request)
                  problem_data))
      | RowDoesNotExist => Returns (error "Problem does not exist")
      | RowsMultiple => Propagates MultipleObjectsReturned
      end
  | None =>
      match truthy (Request.GET request !! "limit") with
      | None => Returns (error "Limit is needed")
      | Some _ =>
          let problems := listing (Request.GET request) table in
          let data := paginate_data request problems ProblemSerializer in
          Returns
            (success
               (ProblemAPI._add_problem_status (Request.user request) data))
      end
  end.

End get.
End ProblemAPIView.

Module ContestProblemAPIView.
Section get.

(** [self.contest], bound by the permission decorator: its key and its
    rule type.  The handler below is what runs once that decorator has let
    the request through. *)
Record Contest : Type := {
  contest_pk : Z;
  contest_rule_type : RuleType
}.

(** Declared outside the sources at hand: the two serializers, and the
    answer of [self.contest.problem_details_permission(request.user)]. *)
Variable ProblemSerializer : ProblemRow.t → ProblemData.t.
Variable ProblemSafeSerializer : ProblemRow.t → ProblemData.t.
Variable problem_details_permission : Contest → User → bool.

Inductive Data : Type :=
| One (problem_data : ProblemData.t)
| Many (data : list ProblemData.t).

Inductive Response : Type :=
| success (data : Data)
| error (msg : string).

(** [filter(contest=self.contest, visible=True)] *)
Definition contest_visible (contest : Contest) (table : list ProblemRow.t)
  : list ProblemRow.t :=
  filter (λ p, ProblemRow.contest_id p = Some (contest_pk contest)
               ∧ ProblemRow.visible p = true) table.

Definition get (contest : Contest) (request : Request.t)
    (table : list ProblemRow.t) : outcome Response :=
  match truthy (Request.GET request !! "problem_id") with
  | Some problem_id =>
      match queryset_get
              (filter (λ p, ProblemRow._id p = problem_id)
                 (contest_visible contest table)) with
      | RowDoesNotExist => Returns (error "Problem does not exist.")
      | RowsMultiple => Propagates MultipleObjectsReturned
      | Got problem =>
          if problem_details_permission contest (Request.user request) then
            let problem_data := ProblemSerializer problem in
            match ContestProblemAPI._add_problem_status
                    (contest_rule_type contest) (Request.user request)
                    [problem_data] with
            | [problem_data] => Returns (success (One problem_data))
            | _ => Returns (success (One problem_data))
            end
          else Returns (success (One (ProblemSafeSerializer problem)))
      end
  | None =>
      let contest_problems := contest_visible contest table in
      if problem_details_permission contest (Request.user request) then
        let data := ProblemSerializer <$> contest_problems in
        Returns
          (success
             (Many (ContestProblemAPI._add_problem_status
                      (contest_rule_type contest) (Request.user request)
                      data)))
      else Returns (success (Many (ProblemSafeSerializer <$> contest_problems)))
  end.

End get.
End ContestProblemAPIView.

(** What the contest views make of one row: the safe serialization as it
    is, or, under the details permission, the full serialization with the
    status recorded in the contest namespace of the contest's rule type
    (left as serialized for an anonymous user). *)
Definition contest_problem_data
    (ProblemSerializer ProblemSafeSerializer : ProblemRow.t → ProblemData.t)
    (problem_details_permission :
       ContestProblemAPIView.Contest → User → bool)
    (contest : ContestProblemAPIView.Contest) (user : User)
    (p : ProblemRow.t) : ProblemData.t :=
  if problem_details_permission contest user then
    if is_authenticated user then
      ProblemData.set_my_status (ProblemSerializer p)
        (recorded_status
           (contest_namespace (userprofile user)
              (ContestProblemAPIView.contest_rule_type contest))
           (ProblemData.id (ProblemSerializer p)))
    else ProblemSerializer p
  else ProblemSafeSerializer p.

(** Sample data for the views. *)
Module SampleViews.

Definition row (columns : Problem.t) (title difficulty : string)
    (is_bonus : bool) (tags : list string) : ProblemRow.t :=
  {| ProblemRow.columns := columns; ProblemRow.title := title;
     ProblemRow.difficulty := difficulty; ProblemRow.is_bonus := is_bonus;
     ProblemRow.tags := tags |}.

Definition P1 : ProblemRow.t :=
  row (Sample.problem 1 "P1" "1" true None) "Two Sum" "Low" true ["array"].
Definition P2 : ProblemRow.t :=
  row (Sample.problem 2 "P2" "1" true None) "Graph Walk" "High" false
    ["graph"; "array"].
Definition P3 : ProblemRow.t :=
  row (Sample.problem 3 "P3" "1" false None) "Hidden" "Low" true [].
Definition C7 : ProblemRow.t :=
  row (Sample.problem 7 "C7" "0" true (Some 3)) "Contest Only" "Mid" true
    ["graph"].

Definition table : list ProblemRow.t := [P1; P2; P3; C7].

Definition serialize (p : ProblemRow.t) : ProblemData.t :=
  {| ProblemData.id := Problem.id (ProblemRow.columns p);
     ProblemData.rule_type := ACM;
     ProblemData.my_status := None |}.

Definition paginate (request : Request.t) (rows : list ProblemRow.t)
    (serializer : ProblemRow.t → ProblemData.t) : QuerysetValues :=
  Page (serializer <$> rows) (Z.of_nat (length rows)).

Definition starts_with (text keyword : string) : bool :=
  String.prefix keyword text.

Definition request (params : list (string * string)) : Request.t :=
  {| Request.GET := list_to_map params; Request.user := Sample.user |}.

Definition contest : ContestProblemAPIView.Contest :=
  {| ContestProblemAPIView.contest_pk := 3;
     ContestProblemAPIView.contest_rule_type := ACM |}.

Definition permitted (c : ContestProblemAPIView.Contest) (u : User) : bool :=
  is_authenticated u.

(** The sample profile with other OI and contest progress. *)
Definition other_profile (field_score : Dict.t Z) : UserProfile :=
  {| acm_problems_status :=
       {| problems := Some {[ "1" := Sample.record "P1" 0 ]};
          contest_problems := None |};
     oi_problems_status :=
       {| problems := Some {[ "2" := Sample.record "P2" 0 ]};
          contest_problems := None |};
     field_score := field_score |}.

Definition other_db (field_score : Dict.t Z) : Database :=
  {| UserProfile_objects := {[ 1 := other_profile field_score ]};
     Problem_objects := Problem_objects (Sample.db field_score) |}.

End SampleViews.

(** ** Properties of the annotators *)

Lemma status_of_recorded m p :
  status_of m p = recorded_status m (ProblemData.id p).
Proof.
  unfold status_of, recorded_status.
  by destruct (m !! str (ProblemData.id p)).
Qed.




(** C9.  A single serialized problem and a one-element page holding it are
    annotated alike: the same annotated problem comes back, alone or as the
    only result of the page. *)
Theorem add_problem_status_shape (user : User) (v : ProblemData.t)
    (total : Z) :
  ∃ v',
    ProblemAPI._add_problem_status user (Single v) = Single v'
    ∧ ProblemAPI._add_problem_status user (Page [v] total) = Page [v'] total.
Proof.
  unfold ProblemAPI._add_problem_status.
  destruct (is_authenticated user); simpl; eauto.
Qed.

(** C1, as amended.  On a contest listing the namespace is chosen once, from
    the rule type of the contest: every problem of an authenticated user's
    listing gets the status recorded in the contest namespace of the
    contest's rule type, whatever its own rule type; an anonymous user's
    listing is left as it was. *)
Theorem contest_add_problem_status_lookup (contest_rule_type : RuleType)
    (user : User) (l : list ProblemData.t) (i : nat) (p : ProblemData.t) :
  l !! i = Some p →
  ∃ p',
    ContestProblemAPI._add_problem_status contest_rule_type user l !! i
      = Some p'
    ∧ ProblemData.id p' = ProblemData.id p
    ∧ ProblemData.rule_type p' = ProblemData.rule_type p
    ∧ ProblemData.my_status p' =
        if is_authenticated user
        then recorded_status
               (contest_namespace (userprofile user) contest_rule_type)
               (ProblemData.id p)
        else ProblemData.my_status p.
Proof.
  intros Hp. unfold ContestProblemAPI._add_problem_status.
  destruct (is_authenticated user); [|by exists p].
  rewrite list_lookup_fmap, Hp. simpl.
  eexists; split; [done|]. simpl. rewrite status_of_recorded.
  by destruct contest_rule_type.
Qed.


Lemma contest_add_problem_status_lookup_witness :
  ∃ p',
    ContestProblemAPI._add_problem_status ACM Sample.user
      [Sample.oi_problem] !! 0%nat = Some p'
    ∧ ProblemData.id p' = 7
    ∧ ProblemData.rule_type p' = OI
    ∧ ProblemData.my_status p' =
        recorded_status (contest_namespace (userprofile Sample.user) ACM) 7.
Proof.
  apply (contest_add_problem_status_lookup ACM Sample.user
           [Sample.oi_problem] 0 Sample.oi_problem).
  reflexivity.
Defined.

(** C1 as stated fails: an OI problem listed in an ACM contest is given the
    status of the ACM contest namespace (accepted, [0]), not the one its own
    rule type would select (wrong answer, [-1]). *)
Lemma contest_namespace_not_per_problem :
  ¬ (∀ (contest_rule_type : RuleType) (user : User)
       (l : list ProblemData.t) (i : nat) (p : ProblemData.t),
       is_authenticated user = true →
       l !! i = Some p →
       ∃ p',
         ContestProblemAPI._add_problem_status contest_rule_type user l !! i
           = Some p'
         ∧ ProblemData.my_status p' =
             recorded_status
               (contest_namespace (userprofile user)
                  (ProblemData.rule_type p))
               (ProblemData.id p)).
Proof.
  intros H.
  destruct (H ACM Sample.user [Sample.oi_problem] 0%nat Sample.oi_problem
              eq_refl eq_refl) as (p' & Hp' & Hs).
  vm_compute in Hp'. injection Hp' as <-.
  vm_compute in Hs. discriminate Hs.
Qed.

(** ** Facts about dictionaries, the scan, sampling and solved ids *)

Section DictFacts.
Context {V : Type}.
Implicit Types (d : Dict.t V) (k : string) (v : V).

Lemma dict_get_set d k k' v :
  Dict.get (Dict.set d k v) k' = if decide (k = k') then Some v else Dict.get d k'.
Proof.
  induction d as [|[k0 v0] d IH]; simpl.
  - by case_decide.
  - repeat (case_decide; simpl; subst); try done; congruence.
Qed.

Lemma dict_get_None d k : Dict.get d k = None ↔ k ∉ Dict.keys d.
Proof.
  unfold Dict.keys. induction d as [|[k0 v0] d IH]; simpl.
  - split; [intros _; apply not_elem_of_nil|done].
  - rewrite not_elem_of_cons. case_decide as Hk; subst.
    + split; [done|]. by intros [? _].
    + rewrite IH. split; [by split; [congruence|]|by intros [_ ?]].
Qed.

Lemma dict_get_Some_elem d k v : Dict.get d k = Some v → (k, v) ∈ d.
Proof.
  induction d as [|[k0 v0] d IH]; simpl; [done|].
  case_decide; subst.
  - intros [= ->]. left.
  - intros. right. auto.
Qed.

Lemma dict_get_app_fresh d1 d2 k :
  k ∉ Dict.keys d1 → Dict.get (d1 ++ d2) k = Dict.get d2 k.
Proof.
  unfold Dict.keys. induction d1 as [|[k0 v0] d1 IH]; simpl; [done|].
  rewrite not_elem_of_cons. intros [? ?]. case_decide; [congruence|auto].
Qed.

Lemma dict_set_app_fresh d1 d2 k v v' :
  k ∉ Dict.keys d1 →
  Dict.set (d1 ++ (k, v) :: d2) k v' = d1 ++ (k, v') :: d2.
Proof.
  unfold Dict.keys. induction d1 as [|[k0 v0] d1 IH]; simpl.
  - intros _. by rewrite decide_True.
  - rewrite not_elem_of_cons. intros [? ?]. rewrite decide_False by congruence.
    f_equal. auto.
Qed.

Lemma dict_set_fresh d k v :
  k ∉ Dict.keys d → Dict.set d k v = d ++ [(k, v)].
Proof.
  unfold Dict.keys. induction d as [|[k0 v0] d IH]; simpl; [done|].
  rewrite not_elem_of_cons. intros [? ?]. rewrite decide_False by congruence.
  f_equal. auto.
Qed.

Lemma dict_keys_set_present d k v :
  k ∈ Dict.keys d → Dict.keys (Dict.set d k v) = Dict.keys d.
Proof.
  unfold Dict.keys. induction d as [|[k0 v0] d IH]; simpl.
  - by intros ?%elem_of_nil.
  - intros Hk. case_decide; simpl; [done|].
    f_equal. apply IH. apply elem_of_cons in Hk as [?|?]; [congruence|done].
Qed.

Lemma dict_keys_set_NoDup d k v :
  NoDup (Dict.keys d) → NoDup (Dict.keys (Dict.set d k v)).
Proof.
  intros Hd. destruct (decide (k ∈ Dict.keys d)) as [Hk|Hk].
  - by rewrite dict_keys_set_present.
  - rewrite dict_set_fresh by done. unfold Dict.keys in *.
    rewrite fmap_app. simpl. apply NoDup_app. split_and!; [done| |apply NoDup_singleton].
    intros x Hx ->%list_elem_of_singleton. done.
Qed.
End DictFacts.

Lemma scan_run cap post : ∀ pre w s,
  NoDup (Dict.keys (pre ++ post)) →
  Dict.get (pre ++ post) "max_score" = Some cap →
  AIRecommendProblemAPI.scan (Dict.keys post) w s (pre ++ post)
  = (Ok (strict_min_scan cap post w s), pre ++ (cap_entry cap <$> post)).
Proof.
  induction post as [|[k v] post IH]; intros pre w s Hnd Hcap; simpl.
  - done.
  - assert (Hk : k ∉ Dict.keys pre).
    { unfold Dict.keys in *. rewrite fmap_app in Hnd. simpl in Hnd.
      apply NoDup_app in Hnd as (_ & Hnd & _). intros Hin.
      apply (Hnd k Hin). left. }
    unfold mbind, M_bind, getitem, setitem, Dict.item. simpl.
    rewrite dict_get_app_fresh by done. simpl. rewrite decide_True by done.
    rewrite Hcap. rewrite dict_set_app_fresh by done.
    rewrite dict_get_app_fresh by done. simpl. rewrite decide_True by done.
    assert (Hshape : ∀ x, pre ++ (k, x) :: post = (pre ++ [(k, x)]) ++ post)
      by (intros; by rewrite <- app_assoc).
    assert (Hnd' : NoDup (Dict.keys ((pre ++ [(k, Z.min v cap)]) ++ post))).
    { rewrite <- Hshape. unfold Dict.keys in *.
      rewrite fmap_app in *. done. }
    assert (Hcap' : Dict.get ((pre ++ [(k, Z.min v cap)]) ++ post) "max_score"
                    = Some cap).
    { rewrite <- Hshape, <- (dict_set_app_fresh pre post k v) by done.
      rewrite dict_get_set. case_decide as Hm; [|done]. subst k.
      rewrite dict_get_app_fresh in Hcap by done. simpl in Hcap.
      injection Hcap as ->.
      by rewrite Z.min_id. }
    rewrite !Hshape.
    case_decide; rewrite IH by done; by rewrite <- !app_assoc.
Qed.

Lemma strict_min_scan_spec cap items : ∀ w s,
  let r := strict_min_scan cap items w s in
  (∀ k v, (k, v) ∈ items → r.2 ≤ Z.min v cap)
  ∧ r.2 ≤ s
  ∧ (r = (w, s)
     ∨ ∃ i k v,
         items !! i = Some (k, v)
         ∧ r = (KeyField k, Z.min v cap)
         ∧ Z.min v cap < s
         ∧ ∀ j k' v', (j < i)%nat → items !! j = Some (k', v') →
                      Z.min v cap < Z.min v' cap).
Proof.
  induction items as [|[k v] items IH]; intros w s; simpl.
  - split_and!; [by intros ?? ?%elem_of_nil|done|by left].
  - case_decide as Hlt.
    + destruct (IH (KeyField k) (Z.min v cap)) as (Hall & Hle & Hsel).
      split_and!.
      * intros k' v' [[= -> ->]|?]%elem_of_cons; [done|by apply (Hall k')].
      * lia.
      * right. destruct Hsel as [->|(i & k1 & v1 & Hi & -> & Hlt1 & Hbefore)].
        -- exists 0%nat, k, v. split_and!; [done..|]. intros; lia.
        -- exists (S i), k1, v1. split_and!; [done|done|lia|].
           intros [|j] k' v' Hj Hlook; simpl in Hlook.
           ++ by injection Hlook as <- <-.
           ++ apply (Hbefore j k'); [lia|done].
    + destruct (IH w s) as (Hall & Hle & Hsel).
      split_and!.
      * intros k' v' [[= -> ->]|?]%elem_of_cons; [lia|by apply (Hall k')].
      * done.
      * destruct Hsel as [->|(i & k1 & v1 & Hi & -> & Hlt1 & Hbefore)];
          [by left|right].
        exists (S i), k1, v1. split_and!; [done..|].
        intros [|j] k' v' Hj Hlook; simpl in Hlook.
        -- injection Hlook as <- <-. lia.
        -- apply (Hbefore j k'); [lia|done].
Qed.

Section Select.
Import AIRecommendProblemAPI.
Variable VeryHigh : Z.

Lemma select_weak_field_run fs v0 :
  NoDup (Dict.keys fs) →
  Dict.get fs "0" = Some v0 →
  select_weak_field VeryHigh fs
  = (Ok (strict_min_scan (VeryHigh * 20)
           (Dict.set fs "max_score" (VeryHigh * 20)) (IntField 0) v0).1,
     capped_vector (VeryHigh * 20) fs).
Proof.
  intros Hnd H0. unfold select_weak_field, capped_vector.
  unfold mbind, M_bind, setitem, getitem, iter_keys, Dict.item. simpl.
  rewrite dict_get_set, decide_False, H0 by done.
  pose proof (scan_run (VeryHigh * 20)
                (Dict.set fs "max_score" (VeryHigh * 20)) [] (IntField 0) v0)
    as Hrun. simpl in Hrun.
  rewrite Hrun; [done|by apply dict_keys_set_NoDup|].
  by rewrite dict_get_set, decide_True.
Qed.

Lemma select_weak_field_KeyError fs :
  Dict.get fs "0" = None →
  select_weak_field VeryHigh fs
  = (Raise (KeyError "0"), Dict.set fs "max_score" (VeryHigh * 20)).
Proof.
  intros H0. unfold select_weak_field.
  unfold mbind, M_bind, setitem, getitem, iter_keys, Dict.item. simpl.
  by rewrite dict_get_set, decide_False, H0.
Qed.
End Select.

Section Sampling.
Context {A : Type}.
Implicit Types (pool : list A) (tape : list nat).

Lemma randbelow_lt n tape : (0 < n)%nat → ((random.randbelow n tape).1 < n)%nat.
Proof.
  intros Hn. destruct tape as [|r tape]; simpl; [done|].
  apply Nat.mod_upper_bound. lia.
Qed.

Lemma take_refill pool live j x y :
  (j < live)%nat →
  pool !! j = Some x →
  pool !! (live - 1)%nat = Some y →
  take live pool ≡ₚ x :: take (live - 1) (<[j:=y]> pool).
Proof.
  intros Hj Hx Hy.
  assert (Hlive : live = S (live - 1)) by lia.
  rewrite Hlive at 1. erewrite take_S_r by done.
  destruct (decide (j = live - 1)%nat) as [->|Hne].
  - rewrite take_insert_ge by done.
    assert (x = y) as -> by congruence.
    symmetry. apply Permutation_cons_append.
  - rewrite take_insert_lt by lia.
    assert (Hjx : take (live - 1) pool !! j = Some x)
      by (rewrite lookup_take_lt by lia; done).
    rewrite (delete_Permutation (take (live - 1) pool) j x) at 1 by done.
    rewrite (delete_Permutation (<[j:=y]> (take (live - 1) pool)) j y).
    2:{ apply list_lookup_insert_eq. by eapply lookup_lt_Some. }
    assert (Hdel : ∀ (l : list A) i z, delete i (<[i:=z]> l) = delete i l).
    { intros l. induction l as [|a l IH]; intros [|i] z; simpl; try done.
      f_equal. apply IH. }
    rewrite Hdel. simpl. apply Permutation_skip.
    symmetry. apply Permutation_cons_append.
Qed.

Lemma draw_length todo : ∀ pool live tape,
  (todo ≤ live ≤ length pool)%nat →
  length (random.draw pool live todo tape) = todo.
Proof.
  induction todo as [|todo IH]; intros pool live tape Hle; simpl; [done|].
  destruct (random.randbelow live tape) as [j tape'] eqn:Hr.
  assert (Hj : (j < live)%nat).
  { pose proof (randbelow_lt live tape) as Hlt. rewrite Hr in Hlt.
    apply Hlt. lia. }
  destruct (lookup_lt_is_Some_2 pool j) as [x ->]; [lia|].
  destruct (lookup_lt_is_Some_2 pool (live - 1)%nat) as [y ->]; [lia|].
  simpl. f_equal. apply IH. rewrite length_insert. lia.
Qed.

Lemma draw_submseteq todo : ∀ pool live tape,
  (todo ≤ live ≤ length pool)%nat →
  random.draw pool live todo tape ⊆+ take live pool.
Proof.
  induction todo as [|todo IH]; intros pool live tape Hle; simpl.
  - apply submseteq_nil_l.
  - destruct (random.randbelow live tape) as [j tape'] eqn:Hr.
    assert (Hj : (j < live)%nat).
    { pose proof (randbelow_lt live tape) as Hlt. rewrite Hr in Hlt.
      apply Hlt. lia. }
    destruct (lookup_lt_is_Some_2 pool j) as [x Hx]; [lia|].
    destruct (lookup_lt_is_Some_2 pool (live - 1)%nat) as [y Hy]; [lia|].
    rewrite Hx, Hy.
    rewrite (take_refill pool live j x y) by done.
    apply submseteq_skip, IH. rewrite length_insert. lia.
Qed.

Lemma sample_min (population : list A) tape :
  random.sample population (3 `min` length population)%nat tape
  = Ok (random.draw population (length population)
          (3 `min` length population)%nat tape).
Proof. unfold random.sample. rewrite decide_True by lia. done. Qed.
End Sampling.

Section Solved.
Variable ACCEPTED : Z.

Lemma accepted_ids_ok items :
  Forall (λ kr, record_ok ACCEPTED kr.2) items →
  ∃ ids, accepted_ids ACCEPTED items = Ok ids.
Proof.
  induction 1 as [|[k r] items [[s Hs] Hid] _ [ids IH]]; simpl; [by eexists|].
  simpl in *. rewrite Hs. simpl. case_decide as Hacc; [|by eexists].
  destruct Hid as [x ->]; [congruence|]. simpl. rewrite IH. by eexists.
Qed.

Lemma accepted_ids_complete items : ∀ ids k r x,
  accepted_ids ACCEPTED items = Ok ids →
  (k, r) ∈ items →
  rec_status r = Some ACCEPTED →
  rec__id r = Some x →
  x ∈ ids.
Proof.
  induction items as [|[k0 r0] items IH]; intros ids k r x Hrun Hin Hs Hx.
  - by apply elem_of_nil in Hin.
  - simpl in Hrun.
    destruct (rec_status r0) as [s0|] eqn:Hs0; simpl in Hrun; [|done].
    apply elem_of_cons in Hin as [[= <- <-]|Hin].
    + rewrite Hs0 in Hs. injection Hs as ->.
      rewrite decide_True in Hrun by done. rewrite Hx in Hrun. simpl in Hrun.
      destruct (accepted_ids ACCEPTED items); simpl in Hrun; [|done].
      injection Hrun as <-. left.
    + case_decide.
      * destruct (rec__id r0); simpl in Hrun; [|done].
        destruct (accepted_ids ACCEPTED items) as [ids'|] eqn:Hrest;
          simpl in Hrun; [|done].
        injection Hrun as <-. right. by eapply IH.
      * by eapply IH.
Qed.
End Solved.

(** ** The recommender, step by step *)

Lemma dict_get_capped cap (d : Dict.t Z) k :
  Dict.get (cap_entry cap <$> d) k = (λ v, Z.min v cap) <$> Dict.get d k.
Proof.
  induction d as [|[k0 v0] d IH]; simpl; [done|].
  by case_decide.
Qed.

Lemma capped_lookup (c : Z) (d : Dict.t Z) j k' s' :
  (cap_entry c <$> d) !! j = Some (k', s') →
  ∃ v', d !! j = Some (k', v') ∧ s' = Z.min v' c.
Proof.
  rewrite list_lookup_fmap. intros ([k1 v1] & Hj & [= -> ->])%fmap_Some.
  eauto.
Qed.

Lemma sampled_from_submseteq db w solved tape :
  sampled_from db w solved tape
    ⊆+ AIRecommendProblemAPI.unresolved db w solved.
Proof.
  unfold sampled_from.
  set (u := AIRecommendProblemAPI.unresolved db w solved).
  rewrite <- (take_ge u (length u)) at 4 by done.
  apply draw_submseteq. lia.
Qed.

Lemma sampled_from_length db w solved tape :
  length (sampled_from db w solved tape)
  = (3 `min` length (AIRecommendProblemAPI.unresolved db w solved))%nat.
Proof. unfold sampled_from. apply draw_length. lia. Qed.

Lemma scan_exn ks : ∀ w s fs e fs',
  AIRecommendProblemAPI.scan ks w s fs = (Raise e, fs') → ∃ k, e = KeyError k.
Proof.
  induction ks as [|k ks IH]; intros w s fs e fs'; simpl; [done|].
  unfold mbind, M_bind, getitem, setitem, Dict.item.
  destruct (Dict.get fs k); [|intros [= <- _]; eauto].
  destruct (Dict.get fs "max_score"); [|intros [= <- _]; eauto].
  destruct (Dict.get (Dict.set fs k _) k); [|intros [= <- _]; eauto].
  case_decide; apply IH.
Qed.

Lemma select_weak_field_exn VeryHigh fs e fs' :
  AIRecommendProblemAPI.select_weak_field VeryHigh fs = (Raise e, fs') →
  ∃ k, e = KeyError k.
Proof.
  unfold AIRecommendProblemAPI.select_weak_field.
  unfold mbind, M_bind, setitem, getitem, iter_keys, Dict.item. simpl.
  destruct (Dict.get (Dict.set fs "max_score" _) "0");
    [|intros [= <- _]; eauto].
  destruct (AIRecommendProblemAPI.scan _ _ _ _) as [[found|e'] fs1] eqn:Hscan;
    [done|].
  intros [= <- _]. by eapply scan_exn.
Qed.

Lemma accepted_ids_exn ACCEPTED items e :
  accepted_ids ACCEPTED items = Raise e → ∃ k, e = KeyError k.
Proof.
  induction items as [|[k r] items IH]; simpl; [done|].
  destruct (rec_status r); simpl; [|intros [= <-]; eauto].
  case_decide; [|done].
  destruct (rec__id r); simpl; [|intros [= <-]; eauto].
  destruct (accepted_ids ACCEPTED items); simpl; [done|].
  intros [= <-]. by apply IH.
Qed.

Lemma get_user_solved_problems_exn ACCEPTED db user e :
  get_user_solved_problems ACCEPTED db user = Raise e →
  (e = DoesNotExist ∧ UserProfile_objects db !! user = None)
  ∨ ∃ k, e = KeyError k.
Proof.
  unfold get_user_solved_problems, UserProfile_objects_get.
  destruct (UserProfile_objects db !! user); simpl.
  - intros ?%accepted_ids_exn. by right.
  - intros [= <-]. by left.
Qed.

Section Recommend.
Import AIRecommendProblemAPI.
Variable ACCEPTED : Z.
Variable VeryHigh : Z.
Variable Serialized : Type.
Variable serializer : Problem.t → Serialized.

Local Abbreviation recommend :=
  (recommend ACCEPTED VeryHigh Serialized serializer).
Local Abbreviation get := (get ACCEPTED VeryHigh Serialized serializer).

Lemma recommend_unfold db user tape fs :
  recommend db user tape fs
  = match select_weak_field VeryHigh fs with
    | (Raise e, fs') => (Raise e, fs')
    | (Ok w, fs') =>
        match get_user_solved_problems ACCEPTED db user with
        | Raise e => (Raise e, fs')
        | Ok solved =>
            (Ok {| data_field_score := fs';
                   recommend_problems :=
                     serializer <$> sampled_from db w solved tape |},
             fs')
        end
    end.
Proof.
  unfold AIRecommendProblemAPI.recommend.
  unfold mbind at 1. unfold M_bind.
  destruct (select_weak_field VeryHigh fs) as [[w|e] fs1]; [|done].
  unfold mbind at 1. unfold M_bind, lift.
  destruct (get_user_solved_problems ACCEPTED db user) as [solved|e]; [|done].
  unfold mbind at 1. unfold M_bind. by rewrite sample_min.
Qed.

Lemma recommend_state db user tape fs :
  (recommend db user tape fs).2 = (select_weak_field VeryHigh fs).2.
Proof.
  rewrite recommend_unfold.
  destruct (select_weak_field VeryHigh fs) as [[w|e] fs1]; [|done].
  by destruct (get_user_solved_problems ACCEPTED db user).
Qed.

Lemma solved_ok db user profile :
  UserProfile_objects db !! user = Some profile →
  map_Forall (λ _ r, record_ok ACCEPTED r) (global_namespace profile ACM) →
  ∃ solved,
    get_user_solved_problems ACCEPTED db user = Ok solved
    ∧ ∀ k r x,
        global_namespace profile ACM !! k = Some r →
        rec_status r = Some ACCEPTED →
        rec__id r = Some x →
        x ∈ solved.
Proof.
  intros Hp Hall. unfold get_user_solved_problems, UserProfile_objects_get.
  rewrite Hp. simpl.
  change (default ∅ (problems (acm_problems_status profile)))
    with (global_namespace profile ACM).
  destruct (accepted_ids_ok ACCEPTED
              (map_to_list (global_namespace profile ACM)))
    as [solved Hsolved].
  { apply map_Forall_to_list in Hall. eapply Forall_impl; [exact Hall|].
    by intros [k r]. }
  exists solved. split; [done|]. intros k r x Hk Hs Hx.
  eapply accepted_ids_complete; [exact Hsolved| |done..].
  by apply elem_of_map_to_list.
Qed.

Lemma get_ok db user tape profile :
  UserProfile_objects db !! user = Some profile →
  well_formed ACCEPTED profile →
  ∃ w solved,
    select_weak_field VeryHigh (field_score profile)
      = (Ok w, capped_vector (VeryHigh * 20) (field_score profile))
    ∧ get_user_solved_problems ACCEPTED db user = Ok solved
    ∧ (∀ k r x,
         global_namespace profile ACM !! k = Some r →
         rec_status r = Some ACCEPTED →
         rec__id r = Some x →
         x ∈ solved)
    ∧ get db user tape
      = (Ok (success
               {| data_field_score :=
                    capped_vector (VeryHigh * 20) (field_score profile);
                  recommend_problems :=
                    serializer <$> sampled_from db w solved tape |}),
         Some (capped_vector (VeryHigh * 20) (field_score profile))).
Proof.
  intros Hp (Hnd & [v0 H0] & Hrec).
  destruct (solved_ok db user profile Hp Hrec)
    as (solved & Hsolved & Hcomplete).
  pose proof (select_weak_field_run VeryHigh _ _ Hnd H0) as Hw.
  eexists _, solved. split_and!; [exact Hw|done|done|].
  unfold AIRecommendProblemAPI.get, UserProfile_objects_get. rewrite Hp.
  by rewrite recommend_unfold, Hw, Hsolved.
Qed.

Lemma get_capped_state db user tape profile v0 :
  UserProfile_objects db !! user = Some profile →
  NoDup (Dict.keys (field_score profile)) →
  Dict.get (field_score profile) "0" = Some v0 →
  (get db user tape).2
    = Some (capped_vector (VeryHigh * 20) (field_score profile))
  ∧ ∀ data,
      (get db user tape).1 = Ok (success data) →
      data_field_score data
        = capped_vector (VeryHigh * 20) (field_score profile).
Proof.
  intros Hp Hnd H0.
  pose proof (select_weak_field_run VeryHigh _ _ Hnd H0) as Hw.
  split.
  - unfold AIRecommendProblemAPI.get, UserProfile_objects_get. rewrite Hp.
    pose proof (recommend_state db user tape (field_score profile)) as Hst.
    rewrite Hw in Hst.
    destruct (AIRecommendProblemAPI.recommend _ _ _ _ _ _ _ _)
      as [r fs']. simpl in *. by subst.
  - intros data. unfold AIRecommendProblemAPI.get, UserProfile_objects_get.
    rewrite Hp, recommend_unfold, Hw.
    destruct (get_user_solved_problems ACCEPTED db user) as [solved|e];
      simpl; [by intros [= <-]|by destruct e].
Qed.

(** C3.  Weak-field selection, for a score vector whose iteration starts
    with field ["0"].  The scan returns a field together with the capped
    vector it has compared; the selected field sits at some position [i] of
    that vector with capped score [s = min(raw, cap)], no field has a smaller
    capped score, and every field iterated before position [i] has a
    strictly larger one: the earliest field with the minimal capped score is
    selected.  In particular, when the capped score of ["0"] is minimal,
    ["0"] is selected. *)
Theorem weak_field_selection (fs : Dict.t Z) :
  NoDup (Dict.keys fs) →
  Dict.keys fs !! 0%nat = Some "0" →
  ∃ w i s,
    select_weak_field VeryHigh fs
      = (Ok w, capped_vector (VeryHigh * 20) fs)
    ∧ capped_vector (VeryHigh * 20) fs !! i = Some (field_id w, s)
    ∧ (∀ j k' s',
         capped_vector (VeryHigh * 20) fs !! j = Some (k', s') → s ≤ s')
    ∧ (∀ j k' s',
         (j < i)%nat →
         capped_vector (VeryHigh * 20) fs !! j = Some (k', s') → s < s')
    ∧ (∀ s0,
         Dict.get (capped_vector (VeryHigh * 20) fs) "0" = Some s0 →
         (∀ j k' s',
            capped_vector (VeryHigh * 20) fs !! j = Some (k', s') →
            s0 ≤ s') →
         field_id w = "0").
Proof.
  intros Hnd Hfirst.
  destruct fs as [|[k0 v0] rest]; [done|].
  simpl in Hfirst. injection Hfirst as ->.
  assert (H0 : Dict.get (("0", v0) :: rest) "0" = Some v0) by done.
  pose proof (select_weak_field_run VeryHigh _ _ Hnd H0) as Hrun.
  unfold capped_vector in *.
  set (cap := VeryHigh * 20) in *.
  remember (Dict.set (("0", v0) :: rest) "max_score" cap) as d0 eqn:Hdef.
  assert (Hd0 : d0 !! 0%nat = Some ("0", v0)) by by subst d0.
  assert (Hc0 : Dict.get (cap_entry cap <$> d0) "0" = Some (Z.min v0 cap))
    by by subst d0.
  clear Hdef.
  destruct (strict_min_scan_spec cap d0 (IntField 0) v0)
    as (Hall & Hle & Hsel).
  destruct Hsel as [Hkeep|(i & k & v & Hi & Hr & Hlt & Hbefore)].
  - rewrite Hkeep in Hrun, Hall, Hle. simpl in Hrun, Hall, Hle.
    assert (Hv0 : v0 ≤ Z.min v0 cap)
      by (apply (Hall "0"); by eapply list_elem_of_lookup_2).
    exists (IntField 0), 0%nat, (Z.min v0 cap).
    split_and!;
      [done|by rewrite list_lookup_fmap, Hd0| |intros; lia|done].
    intros j k' s' (v' & Hj & ->)%capped_lookup.
    etrans; [|apply (Hall k'); by eapply list_elem_of_lookup_2]. lia.
  - rewrite Hr in Hrun, Hall, Hle. simpl in Hrun, Hall, Hle.
    exists (KeyField k), i, (Z.min v cap). split_and!; [done| | | |].
    + by rewrite list_lookup_fmap, Hi.
    + intros j k' s' (v' & Hj & ->)%capped_lookup.
      apply (Hall k'). by eapply list_elem_of_lookup_2.
    + intros j k' s' Hji (v' & Hj & ->)%capped_lookup. by eapply Hbefore.
    + intros s0 Hs0 Hmin. rewrite Hc0 in Hs0. injection Hs0 as <-.
      destruct i as [|i].
      * rewrite Hd0 in Hi. by injection Hi as <- <-.
      * pose proof (Hbefore 0%nat "0" v0 ltac:(lia) Hd0).
        pose proof (Hmin (S i) k (Z.min v cap)
                      ltac:(by rewrite list_lookup_fmap, Hi)).
        lia.
Qed.

(** C4, as amended.  The cap is applied to the [field_score] dictionary of
    the loaded profile object itself: after the call that object holds the
    capped vector, and the mapping in a successful response is that same
    object.  At every field other than ["max_score"] its value is
    [min(raw, cap)]; every value is at most the cap, and at most the raw
    value of the field. *)
Theorem field_score_capped_in_place (db : Database) (user : Z)
    (tape : list nat) (profile : UserProfile) :
  UserProfile_objects db !! user = Some profile →
  NoDup (Dict.keys (field_score profile)) →
  is_Some (Dict.get (field_score profile) "0") →
  (get db user tape).2
    = Some (capped_vector (VeryHigh * 20) (field_score profile))
  ∧ (∀ data,
       (get db user tape).1 = Ok (success data) →
       data_field_score data
         = capped_vector (VeryHigh * 20) (field_score profile))
  ∧ (∀ k v,
       Dict.get (field_score profile) k = Some v →
       k ≠ "max_score" →
       Dict.get (capped_vector (VeryHigh * 20) (field_score profile)) k
         = Some (Z.min v (VeryHigh * 20)))
  ∧ (∀ k v',
       Dict.get (capped_vector (VeryHigh * 20) (field_score profile)) k
         = Some v' →
       v' ≤ VeryHigh * 20)
  ∧ (∀ k v v',
       Dict.get (field_score profile) k = Some v →
       k ≠ "max_score" →
       Dict.get (capped_vector (VeryHigh * 20) (field_score profile)) k
         = Some v' →
       v' ≤ v).
Proof.
  intros Hp Hnd [v0 H0].
  destruct (get_capped_state db user tape profile v0 Hp Hnd H0)
    as [Hst Hdata].
  assert (Hget : ∀ k v,
             Dict.get (field_score profile) k = Some v →
             k ≠ "max_score" →
             Dict.get (capped_vector (VeryHigh * 20) (field_score profile)) k
               = Some (Z.min v (VeryHigh * 20))).
  { intros k v Hk Hne. unfold capped_vector.
    by rewrite dict_get_capped, dict_get_set, decide_False, Hk. }
  split_and!; [done..| |].
  - intros k v'. unfold capped_vector. rewrite dict_get_capped.
    intros (v & _ & ->)%fmap_Some. lia.
  - intros k v v' Hk Hne. rewrite (Hget k v Hk Hne). intros [= <-]. lia.
Qed.

(** C6.  For a user whose profile, if there is one, is as the data model
    describes it (distinct score keys including ["0"], readable global ACM
    entries): without a profile record the handler gives the not-found
    response and no dictionary is touched, so there is no partial result;
    with a profile it gives a normal result, whatever the pool holds; the
    not-found response is given in no other case; and no exception leaves
    the handler. *)
Theorem get_not_found_only (db : Database) (user : Z) (tape : list nat) :
  (∀ profile,
     UserProfile_objects db !! user = Some profile →
     well_formed ACCEPTED profile) →
  (UserProfile_objects db !! user = None →
   get db user tape
   = (Ok (HttpResponseNotFound "User does not exist"), None))
  ∧ (∀ profile,
       UserProfile_objects db !! user = Some profile →
       ∃ data fs', get db user tape = (Ok (success data), Some fs'))
  ∧ (∀ content st,
       get db user tape = (Ok (HttpResponseNotFound content), st) →
       UserProfile_objects db !! user = None)
  ∧ (∀ e st, get db user tape ≠ (Raise e, st)).
Proof.
  intros Hwf.
  destruct (UserProfile_objects db !! user) as [profile|] eqn:Hp.
  - destruct (get_ok db user tape profile Hp (Hwf profile eq_refl))
      as (w & solved & _ & _ & _ & Hget).
    rewrite Hget. split_and!; [done| |done|done].
    intros profile' _. eauto.
  - assert (Hget : get db user tape
                   = (Ok (HttpResponseNotFound "User does not exist"), None)).
    { unfold AIRecommendProblemAPI.get, UserProfile_objects_get.
      by rewrite Hp. }
    rewrite Hget. split_and!; done.
Qed.

(** C7.  For a user with a well-formed profile the handler answers with a
    normal result whose problems are serialized rows of the problem table,
    none of which has an [_id] in the list of solved ids; hence none has the
    [_id] of an entry that the global ACM progress map marks accepted. *)
Theorem recommended_not_solved (db : Database) (user : Z) (tape : list nat)
    (profile : UserProfile) :
  UserProfile_objects db !! user = Some profile →
  well_formed ACCEPTED profile →
  ∃ data st solved sampled,
    get db user tape = (Ok (success data), st)
    ∧ get_user_solved_problems ACCEPTED db user = Ok solved
    ∧ recommend_problems data = serializer <$> sampled
    ∧ (∀ p, p ∈ sampled →
            p ∈ Problem_objects db ∧ Problem._id p ∉ solved)
    ∧ (∀ p k r,
         p ∈ sampled →
         global_namespace profile ACM !! k = Some r →
         rec_status r = Some ACCEPTED →
         rec__id r ≠ Some (Problem._id p)).
Proof.
  intros Hp Hwf.
  destruct (get_ok db user tape profile Hp Hwf)
    as (w & solved & _ & Hsolved & Hcomplete & Hget).
  assert (Hin : ∀ p, p ∈ sampled_from db w solved tape →
                     p ∈ Problem_objects db ∧ Problem._id p ∉ solved).
  { intros p Hin.
    eapply elem_of_submseteq in Hin; [|apply sampled_from_submseteq].
    unfold unresolved in Hin.
    apply list_elem_of_filter in Hin as [Hns Hin].
    apply list_elem_of_filter in Hin as [_ Hin]. done. }
  eexists _, _, solved, (sampled_from db w solved tape).
  split_and!; [exact Hget|done|done|done|].
  intros p k r Hsampled Hk Hs Hid.
  apply (proj2 (Hin p Hsampled)). by eapply Hcomplete.
Qed.

(** C8.  For a user with a well-formed profile the handler answers with a
    normal result; its problems are drawn without replacement from the
    unresolved problems of the selected field (as a multiset they are
    contained in them), there are exactly [min(3, |unresolved|)] of them,
    hence at most three, and none when no problem is unresolved. *)
Theorem recommended_count (db : Database) (user : Z) (tape : list nat)
    (profile : UserProfile) :
  UserProfile_objects db !! user = Some profile →
  well_formed ACCEPTED profile →
  ∃ data st w solved sampled,
    get db user tape = (Ok (success data), st)
    ∧ (select_weak_field VeryHigh (field_score profile)).1 = Ok w
    ∧ get_user_solved_problems ACCEPTED db user = Ok solved
    ∧ recommend_problems data = serializer <$> sampled
    ∧ sampled ⊆+ unresolved db w solved
    ∧ length (recommend_problems data)
      = (3 `min` length (unresolved db w solved))%nat
    ∧ (length (recommend_problems data) ≤ 3)%nat
    ∧ (unresolved db w solved = [] → recommend_problems data = []).
Proof.
  intros Hp Hwf.
  destruct (get_ok db user tape profile Hp Hwf)
    as (w & solved & Hw & Hsolved & _ & Hget).
  pose proof (sampled_from_length db w solved tape) as Hlen.
  eexists _, _, w, solved, (sampled_from db w solved tape).
  split_and!; [exact Hget|by rewrite Hw|done|done| | | |]; simpl.
  - apply sampled_from_submseteq.
  - by rewrite length_fmap.
  - rewrite length_fmap. lia.
  - intros Hnil. rewrite Hnil in Hlen. simpl in Hlen.
    apply nil_length_inv in Hlen. by rewrite Hlen.
Qed.

(** C10.  For a profile whose score vector has the field ["0"] and no entry
    ["max_score"] of its own: the cap is appended under ["max_score"] before
    the loop, which then runs over the keys of the vector followed by
    ["max_score"]; the selected field is never ["max_score"]; and the
    dictionary left behind, which is the [field_score] of a successful
    response, is the capped subject fields followed by ["max_score"] with
    the cap. *)
Theorem max_score_pseudo_field (db : Database) (user : Z) (tape : list nat)
    (profile : UserProfile) (v0 : Z) :
  UserProfile_objects db !! user = Some profile →
  NoDup (Dict.keys (field_score profile)) →
  Dict.get (field_score profile) "0" = Some v0 →
  "max_score" ∉ Dict.keys (field_score profile) →
  select_weak_field VeryHigh (field_score profile)
  = (found ← scan (Dict.keys (field_score profile) ++ ["max_score"])
               (IntField 0) v0;
     mret found.1)
      (field_score profile ++ [("max_score", VeryHigh * 20)])
  ∧ ∃ w,
      select_weak_field VeryHigh (field_score profile)
      = (Ok w,
         (cap_entry (VeryHigh * 20) <$> field_score profile)
           ++ [("max_score", VeryHigh * 20)])
      ∧ field_id w ≠ "max_score"
      ∧ (get db user tape).2
        = Some ((cap_entry (VeryHigh * 20) <$> field_score profile)
                  ++ [("max_score", VeryHigh * 20)])
      ∧ ∀ data,
          (get db user tape).1 = Ok (success data) →
          data_field_score data
          = (cap_entry (VeryHigh * 20) <$> field_score profile)
              ++ [("max_score", VeryHigh * 20)].
Proof.
  intros Hp Hnd H0 Hfresh.
  set (fs := field_score profile) in *. set (cap := VeryHigh * 20).
  assert (Hset : Dict.set fs "max_score" cap = fs ++ [("max_score", cap)])
    by by apply dict_set_fresh.
  assert (Hcapped : capped_vector cap fs
                    = (cap_entry cap <$> fs) ++ [("max_score", cap)]).
  { unfold capped_vector. rewrite Hset, fmap_app. simpl.
    unfold cap_entry at 2. simpl. by rewrite Z.min_id. }
  split.
  - unfold select_weak_field.
    unfold mbind at 1 2 3. unfold M_bind, setitem, getitem, iter_keys.
    fold cap. unfold Dict.item.
    rewrite dict_get_set, decide_False, H0 by done. rewrite Hset.
    unfold Dict.keys. by rewrite fmap_app.
  - pose proof (select_weak_field_run VeryHigh fs v0 Hnd H0) as Hw.
    fold cap in Hw. rewrite Hcapped, Hset in Hw.
    destruct (get_capped_state db user tape profile v0 Hp Hnd H0)
      as [Hst Hdata].
    fold fs cap in Hst, Hdata. rewrite Hcapped in Hst, Hdata.
    eexists. split_and!; [exact Hw| |exact Hst|exact Hdata].
    destruct (strict_min_scan_spec cap (fs ++ [("max_score", cap)])
                (IntField 0) v0) as (_ & _ & Hsel).
    destruct Hsel as [->|(i & k & v & Hi & -> & Hlt & Hbefore)]; [done|].
    simpl. intros ->.
    apply dict_get_Some_elem, list_elem_of_lookup in H0 as [j Hj].
    assert (Hjlen : (j < length fs)%nat) by by eapply lookup_lt_Some.
    destruct (decide (i < length fs)%nat) as [Hilt|Hige].
    + rewrite lookup_app_l in Hi by done.
      apply Hfresh. unfold Dict.keys.
      apply list_elem_of_fmap. exists ("max_score", v). split; [done|].
      by eapply list_elem_of_lookup_2.
    + rewrite lookup_app_r in Hi by lia.
      destruct (i - length fs)%nat; simpl in Hi; [|done].
      injection Hi as <-.
      pose proof (Hbefore j "0" v0 ltac:(lia)
                    ltac:(by rewrite lookup_app_l)). lia.
Qed.

End Recommend.

(** ** Concrete runs *)

(** The constants are instantiated with [ACCEPTED = 0] and
    [VeryHigh = 5], so that the cap is 100. *)

Lemma sample_well_formed : well_formed 0 (Sample.profile Sample.scores).
Proof. apply (bool_decide_unpack _). vm_compute. exact I. Defined.

(** Scores 40, 10, 90 under cap 100: field ["1"] is the weak one; P1 is
    solved and P3 is hidden, so P2 is the only recommendation. *)
Example recommend_scenario :
  AIRecommendProblemAPI.get 0 5 string Problem._id
    (Sample.db Sample.scores) 1 [5; 7; 9]%nat
  = (Ok (AIRecommendProblemAPI.success
           {| AIRecommendProblemAPI.data_field_score :=
                [("0", 40); ("1", 10); ("2", 90); ("max_score", 100)];
              AIRecommendProblemAPI.recommend_problems := ["P2"] |}),
     Some [("0", 40); ("1", 10); ("2", 90); ("max_score", 100)]).
Proof. vm_compute. reflexivity. Qed.

(** Fields ["0"] and ["2"] tie at 5 and the others are higher: the initial
    candidate, field ["0"], stays. *)
Example tie_keeps_field_0 :
  (AIRecommendProblemAPI.select_weak_field 5
     [("0", 5); ("1", 9); ("2", 5)]).1 = Ok (IntField 0)
  ∧ field_id (IntField 0) = "0".
Proof. split; vm_compute; reflexivity. Qed.

(** Raw score 150 under cap 100: the field competes at 100. *)
Example raw_above_cap :
  AIRecommendProblemAPI.select_weak_field 5 [("0", 150); ("1", 120)]
  = (Ok (KeyField "0"), [("0", 100); ("1", 100); ("max_score", 100)]).
Proof. vm_compute. reflexivity. Qed.

(** When the dictionary does not start with ["0"], the initial candidate
    still competes at its raw score until its own entry is reached. *)
Example raw_above_cap_later_key :
  AIRecommendProblemAPI.select_weak_field 5 [("1", 120); ("0", 150)]
  = (Ok (KeyField "1"), [("1", 100); ("0", 100); ("max_score", 100)]).
Proof. vm_compute. reflexivity. Qed.

(** C2, evaluated.  With field ["0"] the weak one, the visible problem C7,
    which belongs to contest 3, is among the recommendations: the query
    filters on [field] and [visible] only. *)
Theorem recommend_returns_contest_problem :
  (AIRecommendProblemAPI.get 0 5 Problem.t (λ p, p)
     (Sample.db [("0", 0); ("1", 10)]) 1 []).1
  = Ok (AIRecommendProblemAPI.success
          {| AIRecommendProblemAPI.data_field_score :=
               [("0", 0); ("1", 10); ("max_score", 100)];
             AIRecommendProblemAPI.recommend_problems :=
               [ Sample.problem 4 "P4" "0" true None;
                 Sample.problem 7 "C7" "0" true (Some 3) ] |}).
Proof. vm_compute. reflexivity. Qed.

Lemma weak_field_selection_witness :
  ∃ w i s,
    AIRecommendProblemAPI.select_weak_field 5 Sample.scores
      = (Ok w, capped_vector (5 * 20) Sample.scores)
    ∧ capped_vector (5 * 20) Sample.scores !! i = Some (field_id w, s)
    ∧ (∀ j k' s',
         capped_vector (5 * 20) Sample.scores !! j = Some (k', s') → s ≤ s')
    ∧ (∀ j k' s',
         (j < i)%nat →
         capped_vector (5 * 20) Sample.scores !! j = Some (k', s') → s < s')
    ∧ (∀ s0,
         Dict.get (capped_vector (5 * 20) Sample.scores) "0" = Some s0 →
         (∀ j k' s',
            capped_vector (5 * 20) Sample.scores !! j = Some (k', s') →
            s0 ≤ s') →
         field_id w = "0").
Proof.
  apply (weak_field_selection 5 Sample.scores).
  - apply (bool_decide_unpack _). vm_compute. exact I.
  - reflexivity.
Defined.

Lemma field_score_capped_in_place_witness :
  (AIRecommendProblemAPI.get 0 5 string Problem._id
     (Sample.db [("0", 150); ("1", 120)]) 1 []).2
  = Some (capped_vector (5 * 20) [("0", 150); ("1", 120)]).
Proof.
  apply (field_score_capped_in_place 0 5 string Problem._id
           (Sample.db [("0", 150); ("1", 120)]) 1 []
           (Sample.profile [("0", 150); ("1", 120)])).
  - reflexivity.
  - apply (bool_decide_unpack _). vm_compute. exact I.
  - exists 150. reflexivity.
Defined.

(** C4 as stated fails: the dictionary that was read from the profile is
    not left as it was; with raw scores 150 and 120 it ends up holding 100,
    100 and the extra entry ["max_score"]. *)
Lemma field_score_mutated :
  ¬ (∀ (ACCEPTED VeryHigh : Z) (Serialized : Type)
       (serializer : Problem.t → Serialized) (db : Database) (user : Z)
       (tape : list nat) (profile : UserProfile) (fs' : Dict.t Z),
       UserProfile_objects db !! user = Some profile →
       (AIRecommendProblemAPI.get ACCEPTED VeryHigh Serialized serializer
          db user tape).2 = Some fs' →
       fs' = field_score profile).
Proof.
  intros H.
  specialize (H 0 5 string Problem._id
                (Sample.db [("0", 150); ("1", 120)]) 1 []
                (Sample.profile [("0", 150); ("1", 120)])
                [("0", 100); ("1", 100); ("max_score", 100)]
                eq_refl eq_refl).
  discriminate H.
Qed.

Lemma get_not_found_only_witness :
  AIRecommendProblemAPI.get 0 5 string Problem._id
    (Sample.db Sample.scores) 2 []
  = (Ok (AIRecommendProblemAPI.HttpResponseNotFound "User does not exist"),
     None)
  ∧ ∃ data fs',
      AIRecommendProblemAPI.get 0 5 string Problem._id
        (Sample.db Sample.scores) 1 []
      = (Ok (AIRecommendProblemAPI.success data), Some fs').
Proof.
  split.
  - apply (get_not_found_only 0 5 string Problem._id
             (Sample.db Sample.scores) 2 []).
    + intros profile Hp. vm_compute in Hp. discriminate Hp.
    + reflexivity.
  - apply (get_not_found_only 0 5 string Problem._id
             (Sample.db Sample.scores) 1 [])
      with (Sample.profile Sample.scores).
    + intros profile Hp.
      assert (Hlook : UserProfile_objects (Sample.db Sample.scores) !! 1
                      = Some (Sample.profile Sample.scores)) by reflexivity.
      rewrite Hlook in Hp. injection Hp as <-. exact sample_well_formed.
    + reflexivity.
Defined.

Lemma recommended_not_solved_witness :
  ∃ data st solved sampled,
    AIRecommendProblemAPI.get 0 5 string Problem._id
      (Sample.db Sample.scores) 1 [5; 7; 9]%nat
    = (Ok (AIRecommendProblemAPI.success data), st)
    ∧ get_user_solved_problems 0 (Sample.db Sample.scores) 1 = Ok solved
    ∧ AIRecommendProblemAPI.recommend_problems data
      = Problem._id <$> sampled
    ∧ (∀ p, p ∈ sampled →
            p ∈ Problem_objects (Sample.db Sample.scores)
            ∧ Problem._id p ∉ solved)
    ∧ (∀ p k r,
         p ∈ sampled →
         global_namespace (Sample.profile Sample.scores) ACM !! k = Some r →
         rec_status r = Some 0 →
         rec__id r ≠ Some (Problem._id p)).
Proof.
  apply (recommended_not_solved 0 5 string Problem._id
           (Sample.db Sample.scores) 1 [5; 7; 9]%nat
           (Sample.profile Sample.scores)).
  - reflexivity.
  - exact sample_well_formed.
Defined.

Lemma recommended_count_witness :
  ∃ data st w solved sampled,
    AIRecommendProblemAPI.get 0 5 string Problem._id
      (Sample.db Sample.scores) 1 [5; 7; 9]%nat
    = (Ok (AIRecommendProblemAPI.success data), st)
    ∧ (AIRecommendProblemAPI.select_weak_field 5
         (field_score (Sample.profile Sample.scores))).1 = Ok w
    ∧ get_user_solved_problems 0 (Sample.db Sample.scores) 1 = Ok solved
    ∧ AIRecommendProblemAPI.recommend_problems data
      = Problem._id <$> sampled
    ∧ sampled
        ⊆+ AIRecommendProblemAPI.unresolved (Sample.db Sample.scores) w solved
    ∧ length (AIRecommendProblemAPI.recommend_problems data)
      = (3 `min` length (AIRecommendProblemAPI.unresolved
                           (Sample.db Sample.scores) w solved))%nat
    ∧ (length (AIRecommendProblemAPI.recommend_problems data) ≤ 3)%nat
    ∧ (AIRecommendProblemAPI.unresolved (Sample.db Sample.scores) w solved
       = [] →
       AIRecommendProblemAPI.recommend_problems data = []).
Proof.
  apply (recommended_count 0 5 string Problem._id
           (Sample.db Sample.scores) 1 [5; 7; 9]%nat
           (Sample.profile Sample.scores)).
  - reflexivity.
  - exact sample_well_formed.
Defined.

Lemma max_score_pseudo_field_witness :
  ∃ w,
    AIRecommendProblemAPI.select_weak_field 5 Sample.scores
    = (Ok w,
       (cap_entry (5 * 20) <$> Sample.scores) ++ [("max_score", 5 * 20)])
    ∧ field_id w ≠ "max_score"
    ∧ (AIRecommendProblemAPI.get 0 5 string Problem._id
         (Sample.db Sample.scores) 1 []).2
      = Some ((cap_entry (5 * 20) <$> Sample.scores)
                ++ [("max_score", 5 * 20)])
    ∧ ∀ data,
        (AIRecommendProblemAPI.get 0 5 string Problem._id
           (Sample.db Sample.scores) 1 []).1
        = Ok (AIRecommendProblemAPI.success data) →
        AIRecommendProblemAPI.data_field_score data
        = (cap_entry (5 * 20) <$> Sample.scores) ++ [("max_score", 5 * 20)].
Proof.
  apply (max_score_pseudo_field 0 5 string Problem._id
           (Sample.db Sample.scores) 1 [] (Sample.profile Sample.scores) 40).
  - reflexivity.
  - apply (bool_decide_unpack _). vm_compute. exact I.
  - reflexivity.
  - apply (bool_decide_unpack _). vm_compute. exact I.
Defined.

(** ** Further properties of the modelled code *)

Lemma accepted_ids_sound ACCEPTED items : ∀ ids x,
  accepted_ids ACCEPTED items = Ok ids →
  x ∈ ids →
  ∃ k r, (k, r) ∈ items
         ∧ rec_status r = Some ACCEPTED ∧ rec__id r = Some x.
Proof.
  induction items as [|[k0 r0] items IH]; intros ids x Hrun Hx; simpl in Hrun.
  - injection Hrun as <-. by apply elem_of_nil in Hx.
  - destruct (rec_status r0) as [s0|] eqn:Hs0; simpl in Hrun; [|done].
    case_decide as Hacc.
    + destruct (rec__id r0) as [i0|] eqn:Hi0; simpl in Hrun; [|done].
      destruct (accepted_ids ACCEPTED items) as [ids'|] eqn:Hrest;
        simpl in Hrun; [|done].
      injection Hrun as <-. apply elem_of_cons in Hx as [->|Hx].
      * exists k0, r0. split_and!; [left|congruence|done].
      * destruct (IH ids' x eq_refl Hx) as (k & r & Hin & Hs & Hi).
        exists k, r. split_and!; [by right|done..].
    + destruct (IH ids x Hrun Hx) as (k & r & Hin & Hs & Hi).
      exists k, r. split_and!; [by right|done..].
Qed.

Lemma accepted_ids_Ok_inv ACCEPTED items ids :
  accepted_ids ACCEPTED items = Ok ids →
  Forall (λ kr, record_ok ACCEPTED kr.2) items.
Proof.
  revert ids. induction items as [|[k0 r0] items IH]; intros ids Hrun;
    [by constructor|].
  simpl in Hrun.
  destruct (rec_status r0) as [s0|] eqn:Hs0; simpl in Hrun; [|done].
  case_decide as Hacc.
  - destruct (rec__id r0) as [i0|] eqn:Hi0; simpl in Hrun; [|done].
    destruct (accepted_ids ACCEPTED items) as [ids'|] eqn:Hrest;
      simpl in Hrun; [|done].
    constructor; [|by eapply IH].
    split; simpl; [by rewrite Hs0|by rewrite Hi0].
  - constructor; [|by eapply IH].
    split; simpl; [by rewrite Hs0|]. rewrite Hs0. congruence.
Qed.

(** X1.  For a profile whose global ACM entries are readable,
    [get_user_solved_problems] returns a list that holds exactly the [_id]
    values of the entries whose status is the accepted one (the [_id] stored
    in the entry, not the key it is filed under). *)
Theorem solved_ids_exact (ACCEPTED : Z) (db : Database) (user : Z)
    (profile : UserProfile) :
  UserProfile_objects db !! user = Some profile →
  map_Forall (λ _ r, record_ok ACCEPTED r) (global_namespace profile ACM) →
  ∃ solved,
    get_user_solved_problems ACCEPTED db user = Ok solved
    ∧ ∀ x,
        x ∈ solved
        ↔ ∃ k r,
            global_namespace profile ACM !! k = Some r
            ∧ rec_status r = Some ACCEPTED
            ∧ rec__id r = Some x.
Proof.
  intros Hp Hall.
  destruct (solved_ok ACCEPTED db user profile Hp Hall)
    as (solved & Hsolved & Hcomplete).
  exists solved. split; [done|]. intros x. split.
  - intros Hx. revert Hsolved.
    unfold get_user_solved_problems, UserProfile_objects_get.
    rewrite Hp. simpl. intros Hrun.
    destruct (accepted_ids_sound _ _ _ _ Hrun Hx) as (k & r & Hin & Hs & Hi).
    exists k, r. split_and!; [|done..]. by apply elem_of_map_to_list in Hin.
  - intros (k & r & Hk & Hs & Hi). by eapply Hcomplete.
Qed.

(** X2.  Error behaviour of [get_user_solved_problems].  Without a profile
    row it raises [DoesNotExist]; with a profile that has no ["problems"]
    namespace it returns the empty list; and with a profile it returns
    normally exactly when every global ACM entry has a status, and an [_id]
    if that status is the accepted one (an entry that is not accepted may
    lack its [_id]). *)
Theorem solved_ids_errors (ACCEPTED : Z) (db : Database) (user : Z) :
  (UserProfile_objects db !! user = None →
   get_user_solved_problems ACCEPTED db user = Raise DoesNotExist)
  ∧ (∀ profile,
       UserProfile_objects db !! user = Some profile →
       (problems (acm_problems_status profile) = None →
        get_user_solved_problems ACCEPTED db user = Ok [])
       ∧ ((∃ solved, get_user_solved_problems ACCEPTED db user = Ok solved)
          ↔ map_Forall (λ _ r, record_ok ACCEPTED r)
              (global_namespace profile ACM))
       ∧ (∀ e, get_user_solved_problems ACCEPTED db user = Raise e →
               ∃ k, e = KeyError k)).
Proof.
  split.
  - intros Hp. unfold get_user_solved_problems, UserProfile_objects_get.
    by rewrite Hp.
  - intros profile Hp. split_and!.
    + intros Hnone. unfold get_user_solved_problems, UserProfile_objects_get.
      rewrite Hp. simpl. rewrite Hnone. simpl. by rewrite map_to_list_empty.
    + split.
      * intros [solved Hrun]. revert Hrun.
        unfold get_user_solved_problems, UserProfile_objects_get.
        rewrite Hp. simpl. intros Hrun%accepted_ids_Ok_inv.
        apply map_Forall_to_list. eapply Forall_impl; [exact Hrun|].
        by intros [k r].
      * intros Hall.
        destruct (solved_ok ACCEPTED db user profile Hp Hall)
          as (solved & Hsolved & _). eauto.
    + intros e He.
      apply get_user_solved_problems_exn in He as [[_ Hnone]|?];
        [congruence|done].
Qed.

Section RecommendMore.
Import AIRecommendProblemAPI.
Variable ACCEPTED : Z.
Variable VeryHigh : Z.
Variable Serialized : Type.
Variable serializer : Problem.t → Serialized.

Local Abbreviation get := (get ACCEPTED VeryHigh Serialized serializer).

(** X3.  A profile whose score vector has no field ["0"]: the handler
    raises [KeyError] for ["0"], whatever else the profile holds, and the
    loaded dictionary has by then already received its ["max_score"] entry
    (no score has been capped). *)
Theorem get_without_field_0 (db : Database) (user : Z) (tape : list nat)
    (profile : UserProfile) :
  UserProfile_objects db !! user = Some profile →
  Dict.get (field_score profile) "0" = None →
  get db user tape
  = (Raise (KeyError "0"),
     Some (Dict.set (field_score profile) "max_score" (VeryHigh * 20))).
Proof.
  intros Hp H0. unfold AIRecommendProblemAPI.get, UserProfile_objects_get.
  rewrite Hp, recommend_unfold.
  by rewrite (select_weak_field_KeyError VeryHigh _ H0).
Qed.

(** X4.  Weak-field selection for any iteration order.  For a score vector
    with distinct keys that has the field ["0"], the selected field has the
    smallest capped score of all entries (so at most the cap), and it is
    either ["0"] or the first entry in iteration order with that score.
    Whenever the raw score of ["0"] does not exceed the cap and its capped
    score is minimal, ["0"] is selected wherever it sits. *)
Theorem weak_field_any_order (fs : Dict.t Z) (v0 : Z) :
  NoDup (Dict.keys fs) →
  Dict.get fs "0" = Some v0 →
  ∃ w i s,
    select_weak_field VeryHigh fs
      = (Ok w, capped_vector (VeryHigh * 20) fs)
    ∧ capped_vector (VeryHigh * 20) fs !! i = Some (field_id w, s)
    ∧ s ≤ VeryHigh * 20
    ∧ (∀ j k' s',
         capped_vector (VeryHigh * 20) fs !! j = Some (k', s') → s ≤ s')
    ∧ (field_id w = "0"
       ∨ ∀ j k' s',
           (j < i)%nat →
           capped_vector (VeryHigh * 20) fs !! j = Some (k', s') → s < s')
    ∧ (v0 ≤ VeryHigh * 20 →
       (∀ j k' s',
          capped_vector (VeryHigh * 20) fs !! j = Some (k', s') → v0 ≤ s') →
       w = IntField 0).
Proof.
  intros Hnd H0.
  pose proof (select_weak_field_run VeryHigh _ _ Hnd H0) as Hrun.
  unfold capped_vector in *.
  set (cap := VeryHigh * 20) in *.
  assert (Hd0 : ∃ i0, Dict.set fs "max_score" cap !! i0 = Some ("0", v0)).
  { apply list_elem_of_lookup, dict_get_Some_elem.
    by rewrite dict_get_set, decide_False. }
  assert (Hmax : ∃ im, Dict.set fs "max_score" cap !! im
                       = Some ("max_score", cap)).
  { apply list_elem_of_lookup, dict_get_Some_elem.
    by rewrite dict_get_set, decide_True. }
  remember (Dict.set fs "max_score" cap) as d0 eqn:Hdef. clear Hdef.
  destruct Hd0 as [i0 Hi0]. destruct Hmax as [im Him].
  destruct (strict_min_scan_spec cap d0 (IntField 0) v0)
    as (Hall & Hle & Hsel).
  destruct Hsel as [Hkeep|(i & k & v & Hi & Hr & Hlt & Hbefore)].
  - rewrite Hkeep in Hrun, Hall, Hle. simpl in Hrun, Hall, Hle.
    assert (Hv0 : v0 ≤ Z.min v0 cap)
      by (apply (Hall "0"); by eapply list_elem_of_lookup_2).
    exists (IntField 0), i0, (Z.min v0 cap).
    split_and!; [done|by rewrite list_lookup_fmap, Hi0|lia| |by left|done].
    intros j k' s' (v' & Hj & ->)%capped_lookup.
    etrans; [|apply (Hall k'); by eapply list_elem_of_lookup_2]. lia.
  - rewrite Hr in Hrun, Hall, Hle. simpl in Hrun, Hall, Hle.
    exists (KeyField k), i, (Z.min v cap). split_and!; [done| |lia| | |].
    + by rewrite list_lookup_fmap, Hi.
    + intros j k' s' (v' & Hj & ->)%capped_lookup.
      apply (Hall k'). by eapply list_elem_of_lookup_2.
    + right. intros j k' s' Hji (v' & Hj & ->)%capped_lookup.
      by eapply Hbefore.
    + intros Hcap Hmin.
      pose proof (Hmin i k (Z.min v cap)
                    ltac:(by rewrite list_lookup_fmap, Hi)). lia.
Qed.

(** X5.  For a user with a well-formed profile, every recommended problem
    is a visible row of the problem table whose [field] is the selected weak
    field. *)
Theorem recommended_visible_in_weak_field (db : Database) (user : Z)
    (tape : list nat) (profile : UserProfile) :
  UserProfile_objects db !! user = Some profile →
  well_formed ACCEPTED profile →
  ∃ data st w sampled,
    get db user tape = (Ok (success data), st)
    ∧ (select_weak_field VeryHigh (field_score profile)).1 = Ok w
    ∧ recommend_problems data = serializer <$> sampled
    ∧ ∀ p, p ∈ sampled →
           p ∈ Problem_objects db
           ∧ Problem.visible p = true
           ∧ Problem.field p = field_id w.
Proof.
  intros Hp Hwf.
  destruct (get_ok ACCEPTED VeryHigh Serialized serializer db user tape
              profile Hp Hwf) as (w & solved & Hw & _ & _ & Hget).
  eexists _, _, w, (sampled_from db w solved tape).
  split_and!; [exact Hget|by rewrite Hw|done|].
  intros p Hin.
  eapply elem_of_submseteq in Hin; [|apply sampled_from_submseteq].
  unfold unresolved in Hin.
  apply list_elem_of_filter in Hin as [_ Hin].
  apply list_elem_of_filter in Hin as [[Hf Hv] Hin]. done.
Qed.

(** X6.  When the selected field has at most three unresolved problems,
    all of them are recommended: the recommendation is a permutation of the
    unresolved problems. *)
Theorem recommended_all_of_small_pool (db : Database) (user : Z)
    (tape : list nat) (profile : UserProfile) :
  UserProfile_objects db !! user = Some profile →
  well_formed ACCEPTED profile →
  ∃ data st w solved sampled,
    get db user tape = (Ok (success data), st)
    ∧ (select_weak_field VeryHigh (field_score profile)).1 = Ok w
    ∧ get_user_solved_problems ACCEPTED db user = Ok solved
    ∧ recommend_problems data = serializer <$> sampled
    ∧ ((length (unresolved db w solved) ≤ 3)%nat →
       sampled ≡ₚ unresolved db w solved).
Proof.
  intros Hp Hwf.
  destruct (get_ok ACCEPTED VeryHigh Serialized serializer db user tape
              profile Hp Hwf) as (w & solved & Hw & Hsolved & _ & Hget).
  eexists _, _, w, solved, (sampled_from db w solved tape).
  split_and!; [exact Hget|by rewrite Hw|done|done|].
  intros Hsmall. apply submseteq_length_Permutation.
  - apply sampled_from_submseteq.
  - rewrite sampled_from_length. lia.
Qed.

(** X7.  The recommendation reads the profile only through its score vector
    and its global ACM progress: two databases with the same problem table
    whose profiles for the user agree on these two give the same outcome,
    whatever their OI progress and contest progress are. *)
Theorem recommendation_ignores_other_progress (db1 db2 : Database)
    (user : Z) (tape : list nat) (profile1 profile2 : UserProfile) :
  Problem_objects db1 = Problem_objects db2 →
  UserProfile_objects db1 !! user = Some profile1 →
  UserProfile_objects db2 !! user = Some profile2 →
  field_score profile1 = field_score profile2 →
  problems (acm_problems_status profile1)
    = problems (acm_problems_status profile2) →
  get db1 user tape = get db2 user tape.
Proof.
  intros Htable Hp1 Hp2 Hfs Hacm.
  assert (Hsolved : get_user_solved_problems ACCEPTED db1 user
                    = get_user_solved_problems ACCEPTED db2 user).
  { unfold get_user_solved_problems, UserProfile_objects_get.
    rewrite Hp1, Hp2. simpl. by rewrite Hacm. }
  unfold AIRecommendProblemAPI.get, UserProfile_objects_get.
  rewrite Hp1, Hp2, !recommend_unfold, Hfs, Hsolved.
  destruct (select_weak_field VeryHigh (field_score profile2))
    as [[w|e] fs1]; [|done].
  destruct (get_user_solved_problems ACCEPTED db2 user) as [solved|e];
    [|done].
  unfold sampled_from, unresolved. by rewrite Htable.
Qed.

End RecommendMore.

(** X8.  Annotating a global listing a second time changes nothing, and
    annotation keeps the shape of what it is given: a single problem stays
    single, a page keeps its total and the number of its results. *)
Theorem add_problem_status_idempotent (user : User) (qv : QuerysetValues) :
  ProblemAPI._add_problem_status user
    (ProblemAPI._add_problem_status user qv)
  = ProblemAPI._add_problem_status user qv
  ∧ (∀ p, qv = Single p →
          ∃ p', ProblemAPI._add_problem_status user qv = Single p')
  ∧ (∀ results total,
       qv = Page results total →
       ∃ results',
         ProblemAPI._add_problem_status user qv = Page results' total
         ∧ length results' = length results).
Proof.
  unfold ProblemAPI._add_problem_status.
  destruct (is_authenticated user) eqn:Hauth; rewrite ?Hauth.
  - set (f := ProblemAPI.annotate _ _).
    assert (Hf : ∀ p, f (f p) = f p).
    { intros p. unfold f, ProblemAPI.annotate, status_of.
      destruct p as [i [] s]; simpl; done. }
    split_and!.
    + destruct qv as [p|results total]; simpl.
      * by rewrite Hf.
      * f_equal. rewrite <- list_fmap_compose.
        apply list_fmap_ext. intros _ p _. apply Hf.
    + intros p ->. simpl. eauto.
    + intros results total ->. simpl. eexists. split; [done|].
      by rewrite length_fmap.
  - split_and!; [done|intros p ->; eauto|intros results total ->; eauto].
Qed.

(** ** The other views *)

Lemma elem_of_public_visible table p :
  p ∈ public_visible table
  ↔ p ∈ table
    ∧ ProblemRow.contest_id p = None ∧ ProblemRow.visible p = true.
Proof. unfold public_visible. rewrite list_elem_of_filter. tauto. Qed.

Lemma truthy_Some x s : truthy x = Some s → x = Some s ∧ s ≠ "".
Proof.
  destruct x as [s'|]; simpl; [|done].
  case_decide; [done|]. by intros [= ->].
Qed.

(** X9.  [PickOneAPI]: with no visible problem outside contests the view
    answers with the error "No problem to pick"; otherwise it answers, for
    every state of the generator, with the [_id] of a visible problem that
    belongs to no contest.  It never fails on an index. *)
Theorem pick_one_public (table : list ProblemRow.t) (tape : list nat) :
  ((∀ p, p ∈ table →
         ¬ (ProblemRow.contest_id p = None ∧ ProblemRow.visible p = true)) →
   PickOneAPI.get table tape
   = Returns (PickOneAPI.error "No problem to pick"))
  ∧ ((∃ p, p ∈ table
           ∧ ProblemRow.contest_id p = None ∧ ProblemRow.visible p = true) →
     ∃ p, p ∈ table
          ∧ ProblemRow.contest_id p = None ∧ ProblemRow.visible p = true
          ∧ PickOneAPI.get table tape
            = Returns (PickOneAPI.success (ProblemRow._id p))).
Proof.
  unfold PickOneAPI.get. split.
  - intros Hnone.
    assert (Hnil : public_visible table = []).
    { destruct (public_visible table) as [|p l] eqn:Hl; [done|].
      assert (Hp : p ∈ public_visible table) by (rewrite Hl; left).
      apply elem_of_public_visible in Hp as (Hin & Hc & Hv).
      destruct (Hnone p Hin); done. }
    by rewrite Hnil.
  - intros (p0 & Hin0 & Hc0 & Hv0).
    assert (Hp0 : p0 ∈ public_visible table)
      by by apply elem_of_public_visible.
    assert (Hlen : (0 < length (public_visible table))%nat).
    { destruct (public_visible table); [by apply elem_of_nil in Hp0|].
      simpl. lia. }
    rewrite decide_False by lia.
    assert (Hidx : (randint 0 (length (public_visible table) - 1) tape
                    < length (public_visible table))%nat).
    { unfold randint. simpl.
      replace (length (public_visible table) - 1 - 0 + 1)%nat
        with (length (public_visible table)) by lia.
      by apply randbelow_lt. }
    destruct (lookup_lt_is_Some_2 _ _ Hidx) as [p Hp]. rewrite Hp.
    apply list_elem_of_lookup_2, elem_of_public_visible in Hp
      as (Hin & Hc & Hv).
    by exists p.
Qed.

Section Bonus.
Variable Serialized : Type.
Variable serializer : ProblemRow.t → Serialized.

(** X10.  [BonusProblemAPI]: the view answers not-found exactly when no row
    is at once outside contests, visible and a bonus problem; otherwise it
    returns the serialization of exactly those rows, in table order. *)
Theorem bonus_problems_listing (table : list ProblemRow.t) :
  ((∀ p, p ∈ table →
         ¬ (ProblemRow.contest_id p = None
            ∧ ProblemRow.visible p = true
            ∧ ProblemRow.is_bonus p = true)) ↔
   BonusProblemAPI.get Serialized serializer table
   = BonusProblemAPI.HttpResponseNotFound "No bonus problem")
  ∧ ((∃ p, p ∈ table
           ∧ ProblemRow.contest_id p = None
           ∧ ProblemRow.visible p = true
           ∧ ProblemRow.is_bonus p = true) →
     ∃ rows,
       BonusProblemAPI.get Serialized serializer table
       = BonusProblemAPI.success (serializer <$> rows)
       ∧ rows `sublist_of` table
       ∧ ∀ p, p ∈ rows
              ↔ p ∈ table
                ∧ ProblemRow.contest_id p = None
                ∧ ProblemRow.visible p = true
                ∧ ProblemRow.is_bonus p = true).
Proof.
  unfold BonusProblemAPI.get.
  set (bonus := filter _ table).
  assert (Hbonus : ∀ p, p ∈ bonus
                        ↔ p ∈ table
                          ∧ ProblemRow.contest_id p = None
                          ∧ ProblemRow.visible p = true
                          ∧ ProblemRow.is_bonus p = true).
  { intros p. unfold bonus. rewrite list_elem_of_filter. tauto. }
  split.
  - split.
    + intros Hnone. destruct bonus as [|p l] eqn:Hl; [done|].
      destruct (Hnone p); apply (Hbonus p); left.
    + destruct bonus as [|p l] eqn:Hl; [|done].
      intros _ p Hin Hp. apply (elem_of_nil p), Hbonus. tauto.
  - intros (p0 & Hp0). apply Hbonus in Hp0.
    exists bonus. split_and!; [|apply sublist_filter|done].
    destruct bonus; [by apply elem_of_nil in Hp0|done].
Qed.
End Bonus.

Section ProblemViews.
Variable ProblemSerializer : ProblemRow.t → ProblemData.t.
Variable paginate_data :
  Request.t → list ProblemRow.t → (ProblemRow.t → ProblemData.t) →
  QuerysetValues.
Variable strip : string → string.
Variable icontains : string → string → bool.

Local Abbreviation problem_get :=
  (ProblemAPIView.get ProblemSerializer paginate_data strip icontains).
Local Abbreviation listing := (ProblemAPIView.listing strip icontains).

Lemma elem_of_tagged tag_text problems p :
  p ∈ ProblemAPIView.tagged tag_text problems
  ↔ p ∈ problems ∧ tag_text ∈ ProblemRow.tags p.
Proof.
  unfold ProblemAPIView.tagged. rewrite list_elem_of_bind. split.
  - intros (q & Hp & Hq).
    apply list_elem_of_fmap in Hp as (name & -> & Hname).
    apply list_elem_of_filter in Hname as [-> Hname]. done.
  - intros [Hp Htag]. exists p. split; [|done].
    apply list_elem_of_fmap. exists tag_text. split; [done|].
    by apply list_elem_of_filter.
Qed.

(** X11.  The detail branch of [ProblemAPI.get] (a non-empty [problem_id]).
    A success always carries the annotated serialization of a row that is
    visible, belongs to no contest and has that [_id]; when exactly one such
    row exists that is the answer, with or without a [limit]; when none
    exists, in particular when the [_id] only names hidden or contest
    problems, the answer is the error "Problem does not exist". *)
Theorem problem_detail (request : Request.t) (table : list ProblemRow.t)
    (problem_id : string) :
  truthy (Request.GET request !! "problem_id") = Some problem_id →
  (∀ data,
     problem_get request table = Returns (ProblemAPIView.success data) →
     ∃ p, p ∈ table
          ∧ ProblemRow._id p = problem_id
          ∧ ProblemRow.contest_id p = None
          ∧ ProblemRow.visible p = true
          ∧ data = ProblemAPI._add_problem_status (Request.user request)
                     (Single (ProblemSerializer p)))
  ∧ (∀ p,
       filter (λ q, ProblemRow._id q = problem_id) (public_visible table)
         = [p] →
       problem_get request table
       = Returns
           (ProblemAPIView.success
              (ProblemAPI._add_problem_status (Request.user request)
                 (Single (ProblemSerializer p)))))
  ∧ ((∀ p, p ∈ table →
           ProblemRow._id p = problem_id →
           ¬ (ProblemRow.contest_id p = None
              ∧ ProblemRow.visible p = true)) →
     problem_get request table
     = Returns (ProblemAPIView.error "Problem does not exist")).
Proof.
  intros Hid. unfold ProblemAPIView.get. rewrite Hid.
  set (matching := filter _ (public_visible table)).
  assert (Hmatch : ∀ p, p ∈ matching
                        ↔ ProblemRow._id p = problem_id
                          ∧ p ∈ table
                          ∧ ProblemRow.contest_id p = None
                          ∧ ProblemRow.visible p = true).
  { intros p. unfold matching.
    by rewrite list_elem_of_filter, elem_of_public_visible. }
  split_and!.
  - intros data.
    destruct matching as [|p [|q l]] eqn:Hm; simpl; [done| |done].
    intros [= <-]. exists p.
    assert (Hp : p ∈ [p]) by left.
    apply Hmatch in Hp as (? & ? & ? & ?). done.
  - intros p ->. done.
  - intros Hnone. destruct matching as [|p l] eqn:Hm; [done|].
    assert (Hp : p ∈ p :: l) by left.
    apply Hmatch in Hp as (? & ? & ? & ?). destruct (Hnone p); done.
Qed.

(** X12.  The listing branch of [ProblemAPI.get] (no [problem_id], or an
    empty one).  Without a [limit] the answer is the error "Limit is needed".
    With one, the answer is the annotated page that the paginator makes of a
    queryset which holds exactly the rows of the table that are visible,
    belong to no contest, and pass every filter that was given: the tag is
    among the row's tags, the stripped keyword occurs in the title or the
    [_id], the difficulty and the field are equal.  A parameter that is
    missing or empty filters nothing. *)
Theorem problem_listing (request : Request.t) (table : list ProblemRow.t) :
  truthy (Request.GET request !! "problem_id") = None →
  (truthy (Request.GET request !! "limit") = None →
   problem_get request table
   = Returns (ProblemAPIView.error "Limit is needed"))
  ∧ (is_Some (truthy (Request.GET request !! "limit")) →
     ∃ rows,
       problem_get request table
       = Returns
           (ProblemAPIView.success
              (ProblemAPI._add_problem_status (Request.user request)
                 (paginate_data request rows ProblemSerializer)))
       ∧ ∀ p,
           p ∈ rows
           ↔ p ∈ table
             ∧ ProblemRow.contest_id p = None
             ∧ ProblemRow.visible p = true
             ∧ (∀ tag_text,
                  truthy (Request.GET request !! "tag") = Some tag_text →
                  tag_text ∈ ProblemRow.tags p)
             ∧ (strip (default "" (Request.GET request !! "keyword")) ≠ "" →
                icontains (ProblemRow.title p)
                  (strip (default "" (Request.GET request !! "keyword")))
                  = true
                ∨ icontains (ProblemRow._id p)
                    (strip (default "" (Request.GET request !! "keyword")))
                  = true)
             ∧ (∀ difficulty,
                  truthy (Request.GET request !! "difficulty")
                    = Some difficulty →
                  ProblemRow.difficulty p = difficulty)
             ∧ (∀ field,
                  truthy (Request.GET request !! "field") = Some field →
                  ProblemRow.field p = field)).
Proof.
  intros Hid. unfold ProblemAPIView.get. rewrite Hid. split.
  - by intros ->.
  - intros [limit ->].
    exists (listing (Request.GET request) table). split; [done|].
    intros p. unfold ProblemAPIView.listing.
    set (keyword := strip (default "" (Request.GET request !! "keyword"))).
    destruct (truthy (Request.GET request !! "field")) as [f|];
      destruct (truthy (Request.GET request !! "difficulty")) as [d|];
      destruct (decide (keyword = "")) as [Hk|Hk];
      destruct (truthy (Request.GET request !! "tag")) as [t|];
      rewrite ?list_elem_of_filter, ?elem_of_tagged,
        ?elem_of_public_visible;
      (split;
       [ intros; destruct_and?; split_and!;
         try done; try (by intros ? [= <-]); try tauto
       | intros (? & ? & ? & Htag & Hkw & Hd & Hf);
         first [pose proof (Htag _ eq_refl)|clear Htag];
         first [pose proof (Hd _ eq_refl)|clear Hd];
         first [pose proof (Hf _ eq_refl)|clear Hf];
         first [pose proof (Hkw Hk)|clear Hkw];
         tauto ]).
Qed.

End ProblemViews.

Lemma contest_annotate_lookup (rule : RuleType) (user : User)
    (l : list ProblemData.t) (i : nat) (p : ProblemData.t) :
  l !! i = Some p →
  ContestProblemAPI._add_problem_status rule user l !! i
  = Some (if is_authenticated user
          then ProblemData.set_my_status p
                 (recorded_status (contest_namespace (userprofile user) rule)
                    (ProblemData.id p))
          else p).
Proof.
  intros Hp. unfold ContestProblemAPI._add_problem_status.
  destruct (is_authenticated user); [|done].
  rewrite list_lookup_fmap, Hp. simpl. rewrite status_of_recorded.
  by destruct rule.
Qed.

Section ContestViews.
Import ContestProblemAPIView.
Variable ProblemSerializer : ProblemRow.t → ProblemData.t.
Variable ProblemSafeSerializer : ProblemRow.t → ProblemData.t.
Variable problem_details_permission : Contest → User → bool.

Local Abbreviation contest_get :=
  (ContestProblemAPIView.get ProblemSerializer ProblemSafeSerializer
     problem_details_permission).

Local Abbreviation problem_data_of :=
  (contest_problem_data ProblemSerializer ProblemSafeSerializer
     problem_details_permission).

(** X13.  The listing branch of [ContestProblemAPI.get]: the answer is
    always a success that lists, in table order and without pagination,
    exactly the visible problems of this contest; each is the safe
    serialization, untouched, when the user lacks the details permission,
    and otherwise the full serialization annotated from the contest
    namespace of the contest's rule type. *)
Theorem contest_listing (contest : Contest) (request : Request.t)
    (table : list ProblemRow.t) :
  truthy (Request.GET request !! "problem_id") = None →
  ∃ rows,
    contest_get contest request table
    = Returns
        (success
           (Many (problem_data_of contest (Request.user request)
                    <$> rows)))
    ∧ rows `sublist_of` table
    ∧ ∀ p, p ∈ rows
           ↔ p ∈ table
             ∧ ProblemRow.contest_id p = Some (contest_pk contest)
             ∧ ProblemRow.visible p = true.
Proof.
  intros Hid. unfold ContestProblemAPIView.get. rewrite Hid.
  exists (contest_visible contest table). split_and!.
  - unfold contest_problem_data.
    destruct (problem_details_permission contest (Request.user request));
      [|done].
    do 3 f_equal. apply list_eq. intros i.
    rewrite list_lookup_fmap.
    destruct (contest_visible contest table !! i) as [p|] eqn:Hp; simpl.
    + erewrite contest_annotate_lookup
        by (rewrite list_lookup_fmap, Hp; done).
      done.
    + apply lookup_ge_None. apply lookup_ge_None in Hp.
      unfold ContestProblemAPI._add_problem_status.
      destruct (is_authenticated (Request.user request));
        by rewrite ?length_fmap.
  - apply sublist_filter.
  - intros p. unfold contest_visible. rewrite list_elem_of_filter. tauto.
Qed.

(** X14.  The detail branch of [ContestProblemAPI.get] (a non-empty
    [problem_id]).  A success always carries a visible row of this contest
    with that [_id], as the safe serialization when the user lacks the
    details permission and as the annotated full serialization otherwise;
    when exactly one such row exists that is the answer; when none exists,
    in particular when the [_id] only names problems outside this contest,
    the answer is the error "Problem does not exist.". *)
Theorem contest_detail (contest : Contest) (request : Request.t)
    (table : list ProblemRow.t) (problem_id : string) :
  truthy (Request.GET request !! "problem_id") = Some problem_id →
  (∀ data,
     contest_get contest request table = Returns (success data) →
     ∃ p, p ∈ table
          ∧ ProblemRow._id p = problem_id
          ∧ ProblemRow.contest_id p = Some (contest_pk contest)
          ∧ ProblemRow.visible p = true
          ∧ data = One (problem_data_of contest (Request.user request)
                          p))
  ∧ (∀ p,
       filter (λ q, ProblemRow._id q = problem_id)
         (contest_visible contest table) = [p] →
       contest_get contest request table
       = Returns
           (success
              (One (problem_data_of contest (Request.user request) p))))
  ∧ ((∀ p, p ∈ table →
           ProblemRow._id p = problem_id →
           ¬ (ProblemRow.contest_id p = Some (contest_pk contest)
              ∧ ProblemRow.visible p = true)) →
     contest_get contest request table
     = Returns (error "Problem does not exist.")).
Proof.
  intros Hid. unfold ContestProblemAPIView.get. rewrite Hid.
  set (matching := filter _ (contest_visible contest table)).
  assert (Hmatch : ∀ p, p ∈ matching
                        ↔ ProblemRow._id p = problem_id
                          ∧ p ∈ table
                          ∧ ProblemRow.contest_id p
                            = Some (contest_pk contest)
                          ∧ ProblemRow.visible p = true).
  { intros p. unfold matching, contest_visible.
    rewrite !list_elem_of_filter. tauto. }
  assert (Hone : ∀ p,
             (if problem_details_permission contest (Request.user request)
              then
                match ContestProblemAPI._add_problem_status
                        (contest_rule_type contest) (Request.user request)
                        [ProblemSerializer p] with
                | [problem_data] => Returns (success (One problem_data))
                | _ => Returns (success (One (ProblemSerializer p)))
                end
              else Returns (success (One (ProblemSafeSerializer p))))
             = Returns
                 (success
                    (One (problem_data_of contest
                            (Request.user request) p)))).
  { intros p. unfold contest_problem_data.
    destruct (problem_details_permission contest (Request.user request));
      [|done].
    unfold ContestProblemAPI._add_problem_status.
    destruct (is_authenticated (Request.user request)); [|done].
    simpl. rewrite status_of_recorded.
    by destruct (contest_rule_type contest). }
  split_and!.
  - intros data.
    destruct matching as [|p [|q l]] eqn:Hm; simpl; [done| |done].
    rewrite Hone. intros [= <-]. exists p.
    assert (Hp : p ∈ [p]) by left.
    apply Hmatch in Hp as (? & ? & ? & ?). done.
  - intros p ->. simpl. apply Hone.
  - intros Hnone. destruct matching as [|p l] eqn:Hm; [done|].
    assert (Hp : p ∈ p :: l) by left.
    apply Hmatch in Hp as (? & ? & ? & ?). destruct (Hnone p); done.
Qed.

End ContestViews.

(** ** Concrete runs of the further properties *)

Lemma solved_ids_exact_witness :
  ∃ solved,
    get_user_solved_problems 0 (Sample.db Sample.scores) 1 = Ok solved
    ∧ ∀ x,
        x ∈ solved
        ↔ ∃ k r,
            global_namespace (Sample.profile Sample.scores) ACM !! k = Some r
            ∧ rec_status r = Some 0
            ∧ rec__id r = Some x.
Proof.
  apply (solved_ids_exact 0 (Sample.db Sample.scores) 1
           (Sample.profile Sample.scores)).
  - reflexivity.
  - exact (proj2 (proj2 sample_well_formed)).
Defined.

Lemma solved_ids_errors_witness :
  get_user_solved_problems 0 (Sample.db Sample.scores) 2 = Raise DoesNotExist
  ∧ ∃ solved,
      get_user_solved_problems 0 (Sample.db Sample.scores) 1 = Ok solved.
Proof.
  split.
  - apply (solved_ids_errors 0 (Sample.db Sample.scores) 2). reflexivity.
  - apply (proj2 (solved_ids_errors 0 (Sample.db Sample.scores) 1)
             (Sample.profile Sample.scores) eq_refl).
    exact (proj2 (proj2 sample_well_formed)).
Defined.

Lemma get_without_field_0_witness :
  AIRecommendProblemAPI.get 0 5 string Problem._id
    (Sample.db [("1", 10)]) 1 []
  = (Raise (KeyError "0"),
     Some (Dict.set [("1", 10)] "max_score" (5 * 20))).
Proof.
  apply (get_without_field_0 0 5 string Problem._id
           (Sample.db [("1", 10)]) 1 [] (Sample.profile [("1", 10)]));
    reflexivity.
Defined.

Lemma weak_field_any_order_witness :
  ∃ w i s,
    AIRecommendProblemAPI.select_weak_field 5 [("1", 120); ("0", 150)]
      = (Ok w, capped_vector (5 * 20) [("1", 120); ("0", 150)])
    ∧ capped_vector (5 * 20) [("1", 120); ("0", 150)] !! i
      = Some (field_id w, s)
    ∧ s ≤ 5 * 20.
Proof.
  destruct (weak_field_any_order 5 [("1", 120); ("0", 150)] 150)
    as (w & i & s & Hrun & Hi & Hcap & _).
  - apply (bool_decide_unpack _). vm_compute. exact I.
  - reflexivity.
  - exists w, i, s. split_and!; assumption.
Defined.

Lemma recommended_visible_in_weak_field_witness :
  ∃ data st w sampled,
    AIRecommendProblemAPI.get 0 5 string Problem._id
      (Sample.db Sample.scores) 1 [5; 7; 9]%nat
    = (Ok (AIRecommendProblemAPI.success data), st)
    ∧ (AIRecommendProblemAPI.select_weak_field 5
         (field_score (Sample.profile Sample.scores))).1 = Ok w
    ∧ AIRecommendProblemAPI.recommend_problems data
      = Problem._id <$> sampled
    ∧ ∀ p, p ∈ sampled →
           p ∈ Problem_objects (Sample.db Sample.scores)
           ∧ Problem.visible p = true
           ∧ Problem.field p = field_id w.
Proof.
  apply (recommended_visible_in_weak_field 0 5 string Problem._id
           (Sample.db Sample.scores) 1 [5; 7; 9]%nat
           (Sample.profile Sample.scores)).
  - reflexivity.
  - exact sample_well_formed.
Defined.

Lemma recommended_all_of_small_pool_witness :
  ∃ data st w solved sampled,
    AIRecommendProblemAPI.get 0 5 string Problem._id
      (Sample.db Sample.scores) 1 [5; 7; 9]%nat
    = (Ok (AIRecommendProblemAPI.success data), st)
    ∧ (AIRecommendProblemAPI.select_weak_field 5
         (field_score (Sample.profile Sample.scores))).1 = Ok w
    ∧ get_user_solved_problems 0 (Sample.db Sample.scores) 1 = Ok solved
    ∧ AIRecommendProblemAPI.recommend_problems data
      = Problem._id <$> sampled
    ∧ ((length (AIRecommendProblemAPI.unresolved
                  (Sample.db Sample.scores) w solved) ≤ 3)%nat →
       sampled
         ≡ₚ AIRecommendProblemAPI.unresolved
              (Sample.db Sample.scores) w solved).
Proof.
  apply (recommended_all_of_small_pool 0 5 string Problem._id
           (Sample.db Sample.scores) 1 [5; 7; 9]%nat
           (Sample.profile Sample.scores)).
  - reflexivity.
  - exact sample_well_formed.
Defined.

Lemma recommendation_ignores_other_progress_witness :
  AIRecommendProblemAPI.get 0 5 string Problem._id
    (Sample.db Sample.scores) 1 [5; 7; 9]%nat
  = AIRecommendProblemAPI.get 0 5 string Problem._id
      (SampleViews.other_db Sample.scores) 1 [5; 7; 9]%nat.
Proof.
  apply (recommendation_ignores_other_progress 0 5 string Problem._id
           (Sample.db Sample.scores) (SampleViews.other_db Sample.scores)
           1 [5; 7; 9]%nat
           (Sample.profile Sample.scores)
           (SampleViews.other_profile Sample.scores));
    reflexivity.
Defined.

Lemma add_problem_status_idempotent_witness :
  ∃ results',
    ProblemAPI._add_problem_status Sample.user
      (Page [Sample.oi_problem; Sample.acm_problem] 2)
    = Page results' 2
    ∧ length results' = 2%nat.
Proof.
  apply (proj2 (proj2 (add_problem_status_idempotent Sample.user
                         (Page [Sample.oi_problem; Sample.acm_problem] 2)))
           [Sample.oi_problem; Sample.acm_problem] 2).
  reflexivity.
Defined.

Lemma pick_one_public_witness :
  ∃ p, p ∈ SampleViews.table
       ∧ ProblemRow.contest_id p = None ∧ ProblemRow.visible p = true
       ∧ PickOneAPI.get SampleViews.table [4]%nat
         = Returns (PickOneAPI.success (ProblemRow._id p)).
Proof.
  apply (proj2 (pick_one_public SampleViews.table [4]%nat)).
  exists SampleViews.P1. split_and!; [left|reflexivity..].
Defined.

Lemma bonus_problems_listing_witness :
  ∃ rows,
    BonusProblemAPI.get string ProblemRow._id SampleViews.table
    = BonusProblemAPI.success (ProblemRow._id <$> rows)
    ∧ rows `sublist_of` SampleViews.table
    ∧ ∀ p, p ∈ rows
           ↔ p ∈ SampleViews.table
             ∧ ProblemRow.contest_id p = None
             ∧ ProblemRow.visible p = true
             ∧ ProblemRow.is_bonus p = true.
Proof.
  apply (proj2 (bonus_problems_listing string ProblemRow._id
                  SampleViews.table)).
  exists SampleViews.P1. split_and!; [left|reflexivity..].
Defined.

Lemma problem_detail_witness :
  ProblemAPIView.get SampleViews.serialize SampleViews.paginate
    (λ s, s) SampleViews.starts_with
    (SampleViews.request [("problem_id", "P1")]) SampleViews.table
  = Returns
      (ProblemAPIView.success
         (ProblemAPI._add_problem_status Sample.user
            (Single (SampleViews.serialize SampleViews.P1))))
  ∧ ProblemAPIView.get SampleViews.serialize SampleViews.paginate
      (λ s, s) SampleViews.starts_with
      (SampleViews.request [("problem_id", "C7")]) SampleViews.table
    = Returns (ProblemAPIView.error "Problem does not exist").
Proof.
  split.
  - apply (proj1 (proj2 (problem_detail SampleViews.serialize
                           SampleViews.paginate (λ s, s)
                           SampleViews.starts_with
                           (SampleViews.request [("problem_id", "P1")])
                           SampleViews.table "P1" eq_refl))
             SampleViews.P1).
    reflexivity.
  - apply (proj2 (proj2 (problem_detail SampleViews.serialize
                           SampleViews.paginate (λ s, s)
                           SampleViews.starts_with
                           (SampleViews.request [("problem_id", "C7")])
                           SampleViews.table "C7" eq_refl))).
    refine (proj1 (Forall_forall _ _) _).
    apply (bool_decide_unpack _). vm_compute. exact I.
Defined.

Lemma problem_listing_witness :
  ProblemAPIView.get SampleViews.serialize SampleViews.paginate
    (λ s, s) SampleViews.starts_with
    (SampleViews.request [("tag", "array")]) SampleViews.table
  = Returns (ProblemAPIView.error "Limit is needed")
  ∧ ∃ rows,
      ProblemAPIView.get SampleViews.serialize SampleViews.paginate
        (λ s, s) SampleViews.starts_with
        (SampleViews.request [("limit", "10"); ("tag", "array")])
        SampleViews.table
      = Returns
          (ProblemAPIView.success
             (ProblemAPI._add_problem_status Sample.user
                (SampleViews.paginate
                   (SampleViews.request [("limit", "10"); ("tag", "array")])
                   rows SampleViews.serialize))).
Proof.
  split.
  - apply (proj1 (problem_listing SampleViews.serialize SampleViews.paginate
                    (λ s, s) SampleViews.starts_with
                    (SampleViews.request [("tag", "array")])
                    SampleViews.table eq_refl)).
    reflexivity.
  - destruct (proj2 (problem_listing SampleViews.serialize
                       SampleViews.paginate (λ s, s) SampleViews.starts_with
                       (SampleViews.request
                          [("limit", "10"); ("tag", "array")])
                       SampleViews.table eq_refl))
      as (rows & Hget & _).
    + exists "10". reflexivity.
    + exists rows. exact Hget.
Defined.

Lemma contest_listing_witness :
  ∃ rows,
    ContestProblemAPIView.get SampleViews.serialize SampleViews.serialize
      SampleViews.permitted SampleViews.contest
      (SampleViews.request []) SampleViews.table
    = Returns
        (ContestProblemAPIView.success
           (ContestProblemAPIView.Many
              (contest_problem_data SampleViews.serialize
                 SampleViews.serialize SampleViews.permitted
                 SampleViews.contest Sample.user <$> rows)))
    ∧ rows `sublist_of` SampleViews.table
    ∧ ∀ p, p ∈ rows
           ↔ p ∈ SampleViews.table
             ∧ ProblemRow.contest_id p = Some 3
             ∧ ProblemRow.visible p = true.
Proof.
  apply (contest_listing SampleViews.serialize SampleViews.serialize
           SampleViews.permitted SampleViews.contest
           (SampleViews.request []) SampleViews.table).
  reflexivity.
Defined.

Lemma contest_detail_witness :
  ContestProblemAPIView.get SampleViews.serialize SampleViews.serialize
    SampleViews.permitted SampleViews.contest
    (SampleViews.request [("problem_id", "C7")]) SampleViews.table
  = Returns
      (ContestProblemAPIView.success
         (ContestProblemAPIView.One
            (contest_problem_data SampleViews.serialize
               SampleViews.serialize SampleViews.permitted
               SampleViews.contest Sample.user SampleViews.C7)))
  ∧ ContestProblemAPIView.get SampleViews.serialize SampleViews.serialize
      SampleViews.permitted SampleViews.contest
      (SampleViews.request [("problem_id", "P1")]) SampleViews.table
    = Returns (ContestProblemAPIView.error "Problem does not exist.").
Proof.
  split.
  - apply (proj1 (proj2 (contest_detail SampleViews.serialize
                           SampleViews.serialize SampleViews.permitted
                           SampleViews.contest
                           (SampleViews.request [("problem_id", "C7")])
                           SampleViews.table "C7" eq_refl))
             SampleViews.C7).
    reflexivity.
  - apply (proj2 (proj2 (contest_detail SampleViews.serialize
                           SampleViews.serialize SampleViews.permitted
                           SampleViews.contest
                           (SampleViews.request [("problem_id", "P1")])
                           SampleViews.table "P1" eq_refl))).
    refine (proj1 (Forall_forall _ _) _).
    apply (bool_decide_unpack _). vm_compute. exact I.
Defined.
